(** * The iNES cartridge decoder of nes_py ([nes_py/_rom.py]) and the
      joypad wrapper ([nes_py/wrappers/joypad_space.py])

    A shallow embedding of the class [ROM] and the properties of its header
    validation, flag decoding and region slicing, followed by the class
    [JoypadSpace], which turns lists of buttons into controller bytes.

    The class reads a file into a one-dimensional [uint8] array and exposes
    every derived field as a [cached_property].  [raw_data] is assigned once,
    in [__init__], so each cached property is a pure function of the
    instance; it is embedded as a function of the record [ROM].  A property
    that raises caches nothing and raises again on the next access, which the
    function does as well. *)

From Stdlib Require Import ZArith NArith Lia.
From Stdlib Require Import Strings.Ascii Strings.String Strings.Byte.
From stdpp Require Import base list strings gmap sorting.

Local Open Scope Z_scope.

(** ** The fragments of Python and NumPy the class relies on *)

Module Py.

(** The exceptions the class raises or handles.  The two classes raised by
    the source carry its message; an [IndexError] comes from NumPy. *)
Inductive exn : Type :=
| TypeError (msg : string)
| ValueError (msg : string)
| IndexError.

Inductive result (A : Type) : Type :=
| Ok (a : A)
| Raise (e : exn).
Arguments Ok {A} a.
Arguments Raise {A} e.

Definition bind {A B} (m : result A) (k : A → result B) : result B :=
  match m with
  | Ok a => k a
  | Raise e => Raise e
  end.

(** [try: body  except IndexError: raise ValueError(msg)] *)
Definition except_IndexError {A} (body : result A) (msg : string)
  : result A :=
  match body with
  | Raise IndexError => Raise (ValueError msg)
  | r => r
  end.

(** A value a caller can pass as [rom_path]. *)
Inductive object : Type :=
| Str (s : string)
| Int (z : Z)
| Bytes (b : list byte)
| None_.

(** The value of a [uint8] scalar. *)
Definition u8 (b : byte) : Z := Z.of_N (Byte.to_N b).

(** Basic slicing [a[start:stop]] of a sequence: a negative bound counts
    from the end, both bounds are clipped to the sequence, and a stop
    before the start gives the empty sequence.  No bound is ever out of
    range. *)
Definition clip (len i : Z) : Z :=
  if i <? 0 then Z.max (i + len) 0 else Z.min i len.

Definition slice {A} (start stop : option Z) (a : list A) : list A :=
  let n := Z.of_nat (length a) in
  let lo := from_option (clip n) 0 start in
  let hi := from_option (clip n) n stop in
  take (Z.to_nat (hi - lo)) (drop (Z.to_nat lo) a).

(** [len(a)] *)
Definition len {A} (a : list A) : Z := Z.of_nat (length a).

(** Integer indexing [a[i]] with a literal index [i >= 0]. *)
Definition getitem {A} (a : list A) (i : nat) : result A :=
  match a !! i with
  | Some x => Ok x
  | None => Raise IndexError
  end.

(** [np.array_equal(a1, a2)]: same shape and equal element by element. *)
Definition array_equal (a1 : list byte) (a2 : list Z) : bool :=
  if bool_decide (length a1 = length a2)
  then forallb (λ p, u8 p.1 =? p.2) (zip a1 a2)
  else false.

(** [a.sum()] of a [uint8] array: accumulated in the platform's unsigned
    integer, 64 bits wide. *)
Definition sum (a : list byte) : Z :=
  foldr (λ b acc, (u8 b + acc) mod 2 ^ 64) 0 a.

(** [format(n, "08b")]: binary digits, most significant first, padded
    with zeros on the left to a width of eight. *)
Fixpoint bin_pos (p : positive) (acc : string) : string :=
  match p with
  | xH => String "1"%char acc
  | xO q => bin_pos q (String "0"%char acc)
  | xI q => bin_pos q (String "1"%char acc)
  end.

Definition bin (n : N) : string :=
  match n with
  | N0 => "0"
  | Npos p => bin_pos p EmptyString
  end.

Fixpoint zeros (n : nat) : string :=
  match n with
  | O => EmptyString
  | S m => String "0"%char (zeros m)
  end.

Definition format_08b (b : byte) : string :=
  let s := bin (Byte.to_N b) in
  zeros (8 - String.length s) +:+ s.

(** [s[i]] on a string, with a literal index [i >= 0]. *)
Definition str_getitem (s : string) (i : nat) : result string :=
  match String.get i s with
  | Some c => Ok (String c EmptyString)
  | None => Raise IndexError
  end.

(** [int(s, base)] for [base <= 10] on a string of digits, which is all
    the class passes to it.  Signs, blanks, prefixes and underscores never
    occur in the output of [format_08b] and count as invalid literals
    here. *)
Definition digit (base : Z) (c : ascii) : option Z :=
  let d := Z.of_N (N_of_ascii c) - 48 in
  if (0 <=? d) && (d <? base) then Some d else None.

Fixpoint int_digits (base : Z) (s : string) (acc : Z) : result Z :=
  match s with
  | EmptyString => Ok acc
  | String c r =>
      match digit base c with
      | Some d => int_digits base r (base * acc + d)
      | None => Raise (ValueError "invalid literal for int()")
      end
  end.

Definition int (s : string) (base : Z) : result Z :=
  match s with
  | EmptyString => Raise (ValueError "invalid literal for int()")
  | _ => int_digits base s 0
  end.

(** [bool(n)] *)
Definition bool_ (n : Z) : bool := negb (n =? 0).

(** How NumPy types [k * x] for a Python integer [k] and a [uint8] scalar
    [x].  Under value-based promotion (NumPy 1) the product is a 64-bit
    integer; under NEP 50 (NumPy 2) it stays a [uint8] and wraps. *)
Inductive promotion : Type := ValueBased | NEP50.

Definition mul_int_u8 (p : promotion) (k : Z) (x : byte) : Z :=
  match p with
  | ValueBased => k * u8 x
  | NEP50 => (k * u8 x) mod 256
  end.

End Py.

Import Py.

#[global] Instance byte_eq_decision : EqDecision byte := Byte.byte_eq_dec.
#[global] Instance result_bind : MBind result := λ A B k m, bind m k.
#[global] Instance result_fmap : FMap result :=
  λ A B f m, bind m (λ a, Ok (f a)).

(** ** The class [ROM] *)

Record ROM : Type := { raw_data : list byte }.

(** The regular files a path can name, with their content:
    [os.path.exists] is the lookup and [np.fromfile] returns the content as
    a [uint8] array.  A path that exists without being a readable file (a
    directory), on which [np.fromfile] raises an [OSError], is not
    represented: no statement below is about such a path. *)
Definition filesystem : Type := gmap string (list byte).

Definition _MAGIC : list Z := [0x4E; 0x45; 0x53; 0x1A].

(** *** Header *)

Definition header (self : ROM) : list byte :=
  slice None (Some 16) (raw_data self).

Definition _magic (self : ROM) : list byte :=
  slice None (Some 4) (header self).

Definition prg_rom_size (self : ROM) : result Z :=
  b ← getitem (header self) 4; Ok (16 * u8 b).

Definition chr_rom_size (self : ROM) : result Z :=
  b ← getitem (header self) 5; Ok (8 * u8 b).

Definition flags_6 (self : ROM) : result string :=
  b ← getitem (header self) 6; Ok (format_08b b).

Definition flags_7 (self : ROM) : result string :=
  b ← getitem (header self) 7; Ok (format_08b b).

Definition prg_ram_size (p : promotion) (self : ROM) : result Z :=
  size ← getitem (header self) 8;
  if u8 (size : byte) =? 0 then Ok (8 * 1) else Ok (mul_int_u8 p 8 size).

Definition flags_9 (self : ROM) : result string :=
  b ← getitem (header self) 9; Ok (format_08b b).

Definition flags_10 (self : ROM) : result string :=
  b ← getitem (header self) 10; Ok (format_08b b).

Definition _zero_fill (self : ROM) : Z :=
  sum (slice (Some 11) None (header self)).

(** *** Construction *)

Definition __init__ (fs : filesystem) (rom_path : object) : result ROM :=
  match rom_path with
  | Str path =>
      match fs !! path with
      | None =>
          Raise (ValueError
                   ("rom_path points to non-existent file: " +:+ path +:+ "."))
      | Some content =>
          let self := {| raw_data := content |} in
          if negb (array_equal (_magic self) _MAGIC)
          then Raise (ValueError "ROM missing magic number in header.")
          else if negb (_zero_fill self =? 0)
          then Raise (ValueError "ROM header zero fill bytes are not zero.")
          else Ok self
      end
  | _ => Raise (TypeError "rom_path must be of type: str.")
  end.

(** *** Header flags *)

Definition flag_at (flags : result string) (i : nat) : result bool :=
  s ← flags; c ← str_getitem s i; n ← int c 10; Ok (bool_ n).

Definition mapper (self : ROM) : result Z :=
  f7 ← flags_7 self;
  f6 ← flags_6 self;
  int (String.substring 0 4 f7 +:+ String.substring 0 4 f6) 2.

Definition is_ignore_mirroring (self : ROM) : result bool :=
  flag_at (flags_6 self) 4.

Definition has_trainer (self : ROM) : result bool :=
  flag_at (flags_6 self) 5.

Definition has_battery_backed_ram (self : ROM) : result bool :=
  flag_at (flags_6 self) 6.

Definition is_vertical_mirroring (self : ROM) : result bool :=
  flag_at (flags_6 self) 7.

Definition has_play_choice_10 (self : ROM) : result bool :=
  flag_at (flags_7 self) 6.

Definition has_vs_unisystem (self : ROM) : result bool :=
  flag_at (flags_7 self) 7.

Definition is_pal (self : ROM) : result bool :=
  flag_at (flags_9 self) 7.

(** *** Regions *)

Definition trainer_rom_start (self : ROM) : result Z := Ok 16.

Definition trainer_rom_stop (self : ROM) : result Z :=
  t ← has_trainer self; if t : bool then Ok (16 + 512) else Ok 16.

Definition trainer_rom (self : ROM) : result (list byte) :=
  start ← trainer_rom_start self;
  stop ← trainer_rom_stop self;
  Ok (slice (Some start) (Some stop) (raw_data self)).

Definition prg_rom_start (self : ROM) : result Z := trainer_rom_stop self.

Definition prg_rom_stop (self : ROM) : result Z :=
  start ← prg_rom_start self;
  size ← prg_rom_size self;
  Ok (start + size * 2 ^ 10).

Definition prg_rom (self : ROM) : result (list byte) :=
  except_IndexError
    (start ← prg_rom_start self;
     stop ← prg_rom_stop self;
     Ok (slice (Some start) (Some stop) (raw_data self)))
    "failed to read PRG-ROM on ROM.".

Definition chr_rom_start (self : ROM) : result Z :=
  stop ← prg_rom_stop self; Ok stop.

Definition chr_rom_stop (self : ROM) : result Z :=
  start ← chr_rom_start self;
  size ← chr_rom_size self;
  Ok (start + size * 2 ^ 10).

Definition chr_rom (self : ROM) : result (list byte) :=
  except_IndexError
    (start ← chr_rom_start self;
     stop ← chr_rom_stop self;
     Ok (slice (Some start) (Some stop) (raw_data self)))
    "failed to read CHR-ROM on ROM.".

(** ** Vocabulary of the statements *)

(** The plain sum of the values of a byte sequence. *)
Definition total (a : list byte) : Z := foldr Z.add 0 (u8 <$> a).

(** The signature as bytes, and the reserved bytes: those at offsets 11 to
    15, as far as the file has them. *)
Definition magic_bytes : list byte := [x4e; x45; x53; x1a].

Definition reserved (content : list byte) : list byte :=
  take 5 (drop 11 content).

(** Where the trainer ends, by the trainer bit of flags 6. *)
Definition trainer_end (f6 : byte) : Z :=
  if Z.testbit (u8 f6) 2 then 16 + 512 else 16.

(** ** Test images *)

(** A sixteen-byte header with the magic number and the given fields. *)
Definition ines_header (prg chr f6 f7 ram f9 : byte) (fill : list byte)
  : list byte :=
  [x4e; x45; x53; x1a; prg; chr; f6; f7; ram; f9; x00] ++ fill.

Definition zero_fill5 : list byte := [x00; x00; x00; x00; x00].

(** Scenario A: 32 KiB of PRG, 8 KiB of CHR, 40976 bytes in all. *)
Definition scenario_a : list byte :=
  ines_header x02 x01 x00 x00 x00 x00 zero_fill5 ++ repeat xea (Z.to_nat 40960).

(** Scenario B: the same image cut to 1000 bytes. *)
Definition scenario_b : list byte :=
  ines_header x02 x01 x00 x00 x00 x00 zero_fill5 ++ repeat xea (Z.to_nat 984).

(** Scenario C: scenario A with the trainer bit and 512 trainer bytes. *)
Definition scenario_c : list byte :=
  ines_header x02 x01 x04 x00 x00 x00 zero_fill5
    ++ repeat x11 (Z.to_nat 512) ++ repeat xea (Z.to_nat 40960).

(** Scenario D: scenario A with the byte at offset 12 set to one. *)
Definition scenario_d : list byte :=
  ines_header x02 x01 x00 x00 x00 x00 [x00; x01; x00; x00; x00]
    ++ repeat xea (Z.to_nat 40960).

(** Scenario E: a header whose fourth byte is not the end-of-file mark. *)
Definition scenario_e : list byte :=
  [x4e; x45; x53; x00; x02; x01; x00; x00; x00; x00; x00] ++ zero_fill5.

(** Twelve bytes: the signature, seven zero bytes and a one at offset 11. *)
Definition short_nonzero_fill : list byte :=
  [x4e; x45; x53; x1a; x00; x00; x00; x00; x00; x00; x00; x01].

(** The signature and nothing else. *)
Definition magic_only : list byte := [x4e; x45; x53; x1a].

(** Seven bytes: the file ends with flags 6. *)
Definition seven_bytes : list byte := [x4e; x45; x53; x1a; x02; x01; xf0].

(** Nine bytes: the file ends with the program-RAM byte, before flags 9. *)
Definition nine_bytes : list byte :=
  [x4e; x45; x53; x1a; x02; x01; x0f; x00; x00].

(** A bare header: mapper 0x41, four-screen and battery bits set, PAL. *)
Definition flagged_header : list byte :=
  ines_header x00 x00 x1a x40 x02 x01 zero_fill5.

(** The header of scenario C and nothing after it. *)
Definition trainer_header : list byte :=
  ines_header x02 x01 x04 x00 x00 x00 zero_fill5.

Definition one_file (content : list byte) : filesystem :=
  {[ "game.nes"%string := content ]}.

(** Construct an instance from the one file and read a property of it. *)
Definition read {A} (content : list byte) (property : ROM → result A)
  : result A :=
  self ← __init__ (one_file content) (Str "game.nes"); property self.

(** ** Python dictionaries

    A [dict] keeps its keys in insertion order, and the wrapper iterates over
    its dictionaries, so one is embedded as the list of its items, each key
    once. *)

Module Dict.

Definition dict (K V : Type) : Type := list (K * V).

Section dict.
Context {K V : Type} `{EqDecision K}.

(** [d[k]], with [None] where Python raises [KeyError]. *)
Fixpoint get (d : dict K V) (k : K) : option V :=
  match d with
  | [] => None
  | (k', v) :: rest => if decide (k = k') then Some v else get rest k
  end.

(** [d[k] = v]: a key already present keeps its place. *)
Fixpoint set (d : dict K V) (k : K) (v : V) : dict K V :=
  match d with
  | [] => [(k, v)]
  | (k', v') :: rest =>
      if decide (k = k') then (k', v) :: rest else (k', v') :: set rest k v
  end.

Definition keys (d : dict K V) : list K := d.*1.

Definition items (d : dict K V) : list (K * V) := d.

End dict.

End Dict.

(** ** The class [JoypadSpace] *)

Module JoypadSpace.

(** A key that a failed lookup reports. *)
Inductive key : Type :=
| KStr (s : string)
| KInt (z : Z).

Inductive exn : Type :=
| KeyError (k : key)
| ValueError (msg : string)
| SpaceError.

Inductive outcome (A : Type) : Type :=
| Return (a : A)
| Raise (e : exn).
Arguments Return {A} a.
Arguments Raise {A} e.

Definition _button_map : Dict.dict string Z :=
  [ ("right"%string, 128); ("left"%string, 64); ("down"%string, 32);
    ("up"%string, 16); ("start"%string, 8); ("select"%string, 4);
    ("B"%string, 2); ("A"%string, 1); ("NOOP"%string, 0) ].

Definition buttons : list string := Dict.keys _button_map.

(** [sep.join(words)] *)
Fixpoint join (sep : string) (words : list string) : string :=
  match words with
  | [] => EmptyString
  | [w] => w
  | w :: rest => w +:+ sep +:+ join sep rest
  end.

(** The inner loop of [__init__]: the buttons of one action are or-ed into
    its byte, and a button that is not in [_button_map] raises. *)
Fixpoint byte_of_buttons (button_list : list string) (byte_action : Z)
  : outcome Z :=
  match button_list with
  | [] => Return byte_action
  | button :: rest =>
      match Dict.get _button_map button with
      | Some value => byte_of_buttons rest (Z.lor byte_action value)
      | None => Raise (KeyError (KStr button))
      end
  end.

Section wrapper.

(** The wrapped environment: its state, what a step returns, its [step]
    method, and the dictionary of its [get_keys_to_action] method, from
    tuples of key codes to controller bytes, where it has such a method. *)
Variables Env Output : Type.
Variable env_step : Env → Z → Output * Env.
Variable env_keys : Env → option (Dict.dict (list Z) Z).

Record t : Type := {
  env : Env;
  action_space : Z;
  _action_map : Dict.dict Z Z;
  _action_meanings : Dict.dict Z string
}.

(** The outer loop of [__init__], from action number [action] on. *)
Fixpoint init_loop (actions : list (list string)) (action : Z) (self : t)
  : outcome t :=
  match actions with
  | [] => Return self
  | button_list :: rest =>
      match byte_of_buttons button_list 0 with
      | Return byte_action =>
          init_loop rest (action + 1)
            {| env := env self;
               action_space := action_space self;
               _action_map := Dict.set (_action_map self) action byte_action;
               _action_meanings :=
                 Dict.set (_action_meanings self) action
                   (join " " button_list) |}
      | Raise e => Raise e
      end
  end.

(** [gym.spaces.Discrete(n)] rejects a count that is not positive, so an
    empty list of actions fails before the loop.  The exception is
    gymnasium's own, and its class and text differ between versions of
    gymnasium: [SpaceError] stands for it. *)
Definition __init__ (env : Env) (actions : list (list string)) : outcome t :=
  if bool_decide (0 < len actions)
  then init_loop actions 0
         {| env := env; action_space := len actions;
            _action_map := []; _action_meanings := [] |}
  else Raise SpaceError.

(** [step] returns what the environment returns; the environment moves on
    and the wrapper keeps its maps. *)
Definition step (self : t) (action : Z) : outcome (Output * t) :=
  match Dict.get (_action_map self) action with
  | Some byte_action =>
      let '(output, env') := env_step (env self) byte_action in
      Return (output,
              {| env := env'; action_space := action_space self;
                 _action_map := _action_map self;
                 _action_meanings := _action_meanings self |})
  | None => Raise (KeyError (KInt action))
  end.

(** The loop of [get_keys_to_action] over the items of [_action_map]. *)
Fixpoint keys_loop (action_to_keys : Dict.dict Z (list Z))
    (action_items : list (Z * Z)) (keys_to_action : Dict.dict (list Z) Z)
  : outcome (Dict.dict (list Z) Z) :=
  match action_items with
  | [] => Return keys_to_action
  | (action, byte_action) :: rest =>
      match Dict.get action_to_keys byte_action with
      | Some keys =>
          keys_loop action_to_keys rest
            (Dict.set keys_to_action keys action)
      | None => Raise (KeyError (KInt byte_action))
      end
  end.

(** [{v: k for k, v in d.items()}] *)
Definition invert (d : Dict.dict (list Z) Z) : Dict.dict Z (list Z) :=
  foldl (λ acc kv, Dict.set acc kv.2 kv.1) [] (Dict.items d).

Definition get_keys_to_action (self : t)
  : outcome (Dict.dict (list Z) Z) :=
  match env_keys (env self) with
  | None => Raise (ValueError "self.env has no get_keys_to_action method")
  | Some old_keys_to_action =>
      let action_to_keys := invert old_keys_to_action in
      keys_loop action_to_keys (Dict.items (_action_map self)) []
  end.

(** [sorted] on integers, and the list comprehension over its result. *)
Fixpoint meanings_of (meanings : Dict.dict Z string) (actions : list Z)
  : outcome (list string) :=
  match actions with
  | [] => Return []
  | action :: rest =>
      match Dict.get meanings action with
      | Some meaning =>
          match meanings_of meanings rest with
          | Return tail => Return (meaning :: tail)
          | Raise e => Raise e
          end
      | None => Raise (KeyError (KInt action))
      end
  end.

Definition get_action_meanings (self : t) : outcome (list string) :=
  let actions := merge_sort Z.le (Dict.keys (_action_meanings self)) in
  meanings_of (_action_meanings self) actions.

End wrapper.

End JoypadSpace.

Arguments JoypadSpace.env {Env} _.
Arguments JoypadSpace.action_space {Env} _.
Arguments JoypadSpace._action_map {Env} _.
Arguments JoypadSpace._action_meanings {Env} _.
Arguments JoypadSpace.init_loop {Env} _ _ _.
Arguments JoypadSpace.__init__ {Env} _ _.
Arguments JoypadSpace.step {Env Output} _ _ _.
Arguments JoypadSpace.get_keys_to_action {Env} _ _.
Arguments JoypadSpace.get_action_meanings {Env} _.

(** The bytes of a list of actions, one per action. *)
Definition action_bytes (actions : list (list string)) (bytes : list Z)
  : Prop :=
  Forall2 (λ button_list byte,
             JoypadSpace.byte_of_buttons button_list 0
             = JoypadSpace.Return byte) actions bytes.

(** ** A wrapper for the examples *)

(** Three actions, and an environment whose state is the list of the bytes
    it was stepped with and whose keyboard has a key for each of them. *)
Definition three_actions : list (list string) :=
  [ ["NOOP"%string]; ["right"%string]; ["right"%string; "A"%string] ].

Definition recording_step (env : list Z) (byte : Z) : Z * list Z :=
  (byte, env ++ [byte]).

Definition three_keys (env : list Z) : option (Dict.dict (list Z) Z) :=
  Some [ ([], 0); ([100], 128); ([100; 111], 129); ([97], 64) ].

Definition three_joypad : JoypadSpace.t (list Z) :=
  {| JoypadSpace.env := [];
     JoypadSpace.action_space := 3;
     JoypadSpace._action_map := [(0, 0); (1, 128); (2, 129)];
     JoypadSpace._action_meanings :=
       [(0, "NOOP"%string); (1, "right"%string); (2, "right A"%string)] |}.

(** * Properties *)

Example scenario_a_decodes :
  len <$> read scenario_a prg_rom = Ok 32768 ∧
  len <$> read scenario_a chr_rom = Ok 8192 ∧
  read scenario_a mapper = Ok 0 ∧
  read scenario_a has_trainer = Ok false ∧
  read scenario_a is_ignore_mirroring = Ok false ∧
  read scenario_a is_vertical_mirroring = Ok false.
Proof. split_and!; vm_compute; reflexivity. Qed.

Example scenario_b_cut : scenario_b = take 1000 scenario_a.
Proof. vm_compute. reflexivity. Qed.

Example scenario_c_decodes :
  len <$> read scenario_c trainer_rom = Ok 512 ∧
  read scenario_c prg_rom_start = Ok 528 ∧
  len <$> read scenario_c prg_rom = Ok 32768 ∧
  len <$> read scenario_c chr_rom = Ok 8192.
Proof. split_and!; vm_compute; reflexivity. Qed.

(** ** Slices *)

Section slices.
Context {A : Type}.
Implicit Types (a : list A) (i j : Z).

Lemma slice_prefix a j :
  0 ≤ j → slice None (Some j) a = take (Z.to_nat j) a.
Proof.
  intros Hj. unfold slice, clip; simpl.
  destruct (Z.ltb_spec j 0); [lia|].
  rewrite Z.sub_0_r.
  destruct (Z.le_gt_cases j (Z.of_nat (length a))).
  - by rewrite Z.min_l.
  - rewrite Z.min_r, Nat2Z.id by lia. simpl.
    by rewrite !(take_ge a) by lia.
Qed.

Lemma slice_suffix a i :
  0 ≤ i → slice (Some i) None a = drop (Z.to_nat i) a.
Proof.
  intros Hi. unfold slice, clip; simpl.
  destruct (Z.ltb_spec i 0); [lia|].
  destruct (Z.le_gt_cases i (Z.of_nat (length a))).
  - rewrite Z.min_l by done.
    apply take_ge. rewrite length_drop. lia.
  - rewrite Z.min_r, Z.sub_diag, Nat2Z.id by lia.
    rewrite !drop_ge; [done | lia | lia].
Qed.

Lemma slice_range a i j :
  0 ≤ i → 0 ≤ j →
  slice (Some i) (Some j) a
  = take (Z.to_nat j - Z.to_nat i) (drop (Z.to_nat i) a).
Proof.
  intros Hi Hj. unfold slice, clip; simpl.
  destruct (Z.ltb_spec i 0); [lia|]. destruct (Z.ltb_spec j 0); [lia|].
  set (n := Z.of_nat (length a)).
  destruct (Z.le_gt_cases i n).
  - rewrite (Z.min_l i) by done.
    destruct (Z.le_gt_cases j n).
    + rewrite Z.min_l by done. f_equal. lia.
    + rewrite Z.min_r by lia.
      rewrite !take_ge; [done | |]; rewrite length_drop; lia.
  - rewrite (Z.min_r i) by lia. unfold n. rewrite Nat2Z.id.
    rewrite !(drop_ge a) by lia. by rewrite !take_nil.
Qed.

(** A slice never fails and never holds more than the sequence has. *)
Lemma len_slice a i j :
  0 ≤ i → i ≤ j →
  len (slice (Some i) (Some j) a) = Z.min j (len a) - Z.min i (len a).
Proof.
  intros Hi Hj. rewrite slice_range by lia.
  unfold len. rewrite length_take, length_drop. lia.
Qed.

End slices.

(** ** Bytes and sums *)

Lemma u8_range b : 0 ≤ u8 b ≤ 255.
Proof. unfold u8. pose proof (Byte.to_N_bounded b). lia. Qed.

Lemma u8_inj a b : u8 a = u8 b → a = b.
Proof.
  unfold u8. intros H%N2Z.inj.
  pose proof (Byte.of_to_N a) as Ha. rewrite H, Byte.of_to_N in Ha.
  congruence.
Qed.

Lemma u8_zero b : u8 b = 0 ↔ b = x00.
Proof. split; [intros H; by apply u8_inj | by intros ->]. Qed.

Lemma total_range a : 0 ≤ total a ≤ 255 * len a.
Proof.
  unfold total, len. induction a as [|b a IH]; [simpl; lia|].
  rewrite fmap_cons, length_cons, Nat2Z.inj_succ. cbn [foldr].
  pose proof (u8_range b). lia.
Qed.

Lemma sum_wraps a : sum a = total a mod 2 ^ 64.
Proof.
  unfold sum, total. induction a as [|b a IH]; [done|].
  rewrite fmap_cons. cbn [foldr]. rewrite IH. by rewrite Zplus_mod_idemp_r.
Qed.

(** The accumulator cannot wrap on anything as short as a header. *)
Lemma sum_short a : (length a ≤ 16)%nat → sum a = total a.
Proof.
  intros Hlen. rewrite sum_wraps. apply Z.mod_small.
  pose proof (total_range a). unfold len in *. lia.
Qed.

Lemma total_zero a : total a = 0 ↔ Forall (λ b, b = x00) a.
Proof.
  unfold total. induction a as [|b a IH].
  - split; [constructor | done].
  - rewrite fmap_cons. cbn [foldr]. pose proof (u8_range b). pose proof (total_range a) as Ha.
    unfold total, len in Ha.
    rewrite Forall_cons, <- IH, <- u8_zero. lia.
Qed.

(** ** The header of an instance *)

Lemma header_take self : header self = take 16 (raw_data self).
Proof. unfold header. by rewrite slice_prefix. Qed.

Lemma header_lookup self (i : nat) :
  (i < 16)%nat → header self !! i = raw_data self !! i.
Proof. intros Hi. rewrite header_take. by apply lookup_take_lt. Qed.

Lemma header_short self :
  (length (raw_data self) ≤ 16)%nat → header self = raw_data self.
Proof. intros Hlen. rewrite header_take. by apply take_ge. Qed.

Lemma _magic_take self : _magic self = take 4 (raw_data self).
Proof.
  unfold _magic. rewrite slice_prefix, header_take by done.
  by rewrite take_take.
Qed.

Lemma _zero_fill_reserved self :
  _zero_fill self = total (reserved (raw_data self)).
Proof.
  unfold _zero_fill, reserved. rewrite slice_suffix, header_take by done.
  change (Z.to_nat 11) with 11%nat.
  rewrite (take_drop_commute _ 5 11). simpl.
  apply sum_short. rewrite length_drop, length_take. lia.
Qed.

Lemma array_equal_magic a : array_equal a _MAGIC = true ↔ a = magic_bytes.
Proof.
  unfold array_equal, _MAGIC, magic_bytes. split.
  - case_bool_decide as Hlen; [|done].
    destruct a as [|b0 [|b1 [|b2 [|b3 [|]]]]]; try done. simpl.
    rewrite !andb_true_iff, !Z.eqb_eq.
    intros (H0 & H1 & H2 & H3 & _).
    by rewrite (u8_inj b0 x4e H0), (u8_inj b1 x45 H1),
      (u8_inj b2 x53 H2), (u8_inj b3 x1a H3).
  - by intros ->.
Qed.

(** What [__init__] does on an existing file, by its two checks. *)
Lemma init_cases fs path content :
  fs !! path = Some content →
  __init__ fs (Str path) =
    if decide (take 4 content = magic_bytes)
    then if decide (total (reserved content) = 0)
         then Ok {| raw_data := content |}
         else Raise (ValueError "ROM header zero fill bytes are not zero.")
    else Raise (ValueError "ROM missing magic number in header.").
Proof.
  intros Hfile. unfold __init__. rewrite Hfile. cbv zeta.
  rewrite _magic_take, _zero_fill_reserved. simpl raw_data.
  destruct (array_equal (take 4 content) _MAGIC) eqn:Hmagic.
  - apply array_equal_magic in Hmagic. rewrite decide_True by done. simpl.
    destruct (Z.eqb_spec (total (reserved content)) 0).
    + by rewrite decide_True.
    + by rewrite decide_False.
  - rewrite decide_False; [done|].
    intros ?%array_equal_magic. congruence.
Qed.

(** Construction keeps the content of the file and changes nothing. *)
Lemma init_ok_inv fs rom_path self :
  __init__ fs rom_path = Ok self →
  ∃ path, rom_path = Str path ∧ fs !! path = Some (raw_data self) ∧
    take 4 (raw_data self) = magic_bytes ∧
    total (reserved (raw_data self)) = 0.
Proof.
  destruct rom_path as [path| | |]; try done.
  destruct (fs !! path) as [content|] eqn:Hfile; [|by simpl; rewrite Hfile].
  rewrite (init_cases _ _ _ Hfile).
  repeat case_decide; try done. intros [= <-]. by exists path.
Qed.

(** ** Header validation *)

Lemma one_file_lookup content :
  one_file content !! "game.nes"%string = Some content.
Proof. apply lookup_singleton_eq. Defined.

(** C7: a file whose first four bytes are not exactly 4E 45 53 1A (a file
    with fewer than four bytes included) makes construction raise the
    [ValueError] for a missing magic number, and no instance is returned. *)
Theorem bad_magic_rejected (fs : filesystem) path content :
  fs !! path = Some content →
  take 4 content ≠ magic_bytes →
  __init__ fs (Str path)
    = Raise (ValueError "ROM missing magic number in header.")
  ∧ ∀ self, __init__ fs (Str path) ≠ Ok self.
Proof.
  intros Hfile Hmagic. rewrite (init_cases _ _ _ Hfile).
  by rewrite decide_False.
Qed.

Lemma bad_magic_rejected_witness :
  __init__ (one_file scenario_e) (Str "game.nes")
    = Raise (ValueError "ROM missing magic number in header.")
  ∧ ∀ self, __init__ (one_file scenario_e) (Str "game.nes") ≠ Ok self.
Proof.
  apply (bad_magic_rejected (one_file scenario_e) "game.nes" scenario_e).
  - apply one_file_lookup.
  - vm_compute. discriminate.
Defined.

Example empty_file_rejected :
  __init__ (one_file []) (Str "game.nes")
  = Raise (ValueError "ROM missing magic number in header.").
Proof. vm_compute. reflexivity. Qed.

(** C8: a file that starts with the magic number and whose bytes at offsets
    11 to 15 have a non-zero sum makes construction raise the [ValueError]
    for non-zero zero-fill bytes. *)
Theorem nonzero_fill_rejected (fs : filesystem) path content :
  fs !! path = Some content →
  take 4 content = magic_bytes →
  total (reserved content) ≠ 0 →
  __init__ fs (Str path)
  = Raise (ValueError "ROM header zero fill bytes are not zero.").
Proof.
  intros Hfile Hmagic Hfill. rewrite (init_cases _ _ _ Hfile).
  by rewrite decide_True, decide_False.
Qed.

Lemma nonzero_fill_rejected_witness :
  __init__ (one_file scenario_d) (Str "game.nes")
  = Raise (ValueError "ROM header zero fill bytes are not zero.").
Proof.
  apply (nonzero_fill_rejected (one_file scenario_d) "game.nes" scenario_d).
  - apply one_file_lookup.
  - reflexivity.
  - vm_compute. discriminate.
Defined.

(** Any single non-zero reserved byte is enough: the sum cannot cancel. *)
Corollary nonzero_reserved_byte_rejected (fs : filesystem) path content i b :
  fs !! path = Some content →
  take 4 content = magic_bytes →
  (11 ≤ i ≤ 15)%nat → content !! i = Some b → b ≠ x00 →
  __init__ fs (Str path)
  = Raise (ValueError "ROM header zero fill bytes are not zero.").
Proof.
  intros Hfile Hmagic Hi Hb Hne.
  rewrite (init_cases _ _ _ Hfile), decide_True, decide_False; [done| |done].
  rewrite total_zero, Forall_lookup. intros Hall. apply Hne.
  apply (Hall (i - 11)%nat). unfold reserved.
  rewrite lookup_take_lt, lookup_drop by lia.
  by replace (11 + (i - 11))%nat with i by lia.
Qed.

(** C10, as stated, fails: twelve bytes that start with the magic number and
    end in a non-zero byte at offset 11 are rejected. *)
Lemma short_file_rejected :
  (length short_nonzero_fill < 16)%nat ∧
  take 4 short_nonzero_fill = magic_bytes ∧
  __init__ (one_file short_nonzero_fill) (Str "game.nes")
  = Raise (ValueError "ROM header zero fill bytes are not zero.").
Proof. split_and!; [simpl; lia | reflexivity | vm_compute; reflexivity]. Qed.

(** C10, amended: for a file shorter than 16 bytes that starts with the
    magic number, the header is the whole file, the zero-fill check sums the
    bytes present from offset 11 on, and construction succeeds exactly when
    those bytes are all zero; it always succeeds when the file has at most
    11 bytes. *)
Theorem short_file_constructs (fs : filesystem) path content :
  fs !! path = Some content →
  (length content < 16)%nat →
  take 4 content = magic_bytes →
  let self := {| raw_data := content |} in
  header self = content ∧
  _zero_fill self = total (drop 11 content) ∧
  (__init__ fs (Str path) = Ok self
   ↔ Forall (λ b, b = x00) (drop 11 content)) ∧
  ((length content ≤ 11)%nat → __init__ fs (Str path) = Ok self).
Proof.
  intros Hfile Hlen Hmagic self.
  assert (reserved content = drop 11 content) as Hres.
  { unfold reserved. apply take_ge. rewrite length_drop. lia. }
  assert (__init__ fs (Str path) = Ok self
          ↔ Forall (λ b, b = x00) (drop 11 content)) as Hiff.
  { rewrite (init_cases _ _ _ Hfile), decide_True by done.
    rewrite <- total_zero, Hres. by case_decide. }
  split_and!.
  - apply header_short. simpl. lia.
  - by rewrite _zero_fill_reserved, <- Hres.
  - done.
  - intros Hshort. apply Hiff. by rewrite drop_ge.
Qed.

Lemma short_file_constructs_witness :
  let self := {| raw_data := magic_only |} in
  header self = magic_only ∧
  _zero_fill self = total (drop 11 magic_only) ∧
  (__init__ (one_file magic_only) (Str "game.nes") = Ok self
   ↔ Forall (λ b, b = x00) (drop 11 magic_only)) ∧
  ((length magic_only ≤ 11)%nat →
   __init__ (one_file magic_only) (Str "game.nes") = Ok self).
Proof.
  apply (short_file_constructs (one_file magic_only) "game.nes" magic_only).
  - apply one_file_lookup.
  - simpl. lia.
  - reflexivity.
Defined.

(** ** Flag decoding *)

Lemma bind_Ok {A B} (a : A) (k : A → result B) : Ok a ≫= k = k a.
Proof. reflexivity. Qed.

Lemma fmap_Ok {A B} (f : A → B) (a : A) : f <$> Ok a = Ok (f a).
Proof. reflexivity. Qed.

Lemma getitem_lookup {A} (a : list A) i x : a !! i = Some x → getitem a i = Ok x.
Proof. unfold getitem. by intros ->. Qed.

Lemma getitem_ok_inv {A} (a : list A) i x : getitem a i = Ok x → a !! i = Some x.
Proof. unfold getitem. destruct (a !! i); [by intros [= ->] | done]. Qed.

(** Character [i] of the eight binary digits of a byte is its bit [7 - i]. *)
Lemma flag_at_format b (i : nat) :
  (i < 8)%nat →
  flag_at (Ok (format_08b b)) i = Ok (Z.testbit (u8 b) (7 - Z.of_nat i)).
Proof.
  intros Hi.
  do 8 (destruct i as [|i]; [destruct b; vm_compute; reflexivity|]).
  lia.
Qed.

Lemma format_08b_length b : String.length (format_08b b) = 8%nat.
Proof. destruct b; vm_compute; reflexivity. Qed.

(** Reading digits after digits continues the number read so far. *)
Lemma int_digits_app base s1 s2 acc :
  int_digits base (s1 +:+ s2) acc
  = acc' ← int_digits base s1 acc; int_digits base s2 acc'.
Proof.
  revert acc. induction s1 as [|c s1 IH]; intros acc; simpl; [done|].
  destruct (digit base c); [apply IH | done].
Qed.

Lemma int_digits_shift s acc :
  int_digits 2 s acc
  = v ← int_digits 2 s 0; Ok (acc * 2 ^ Z.of_nat (String.length s) + v).
Proof.
  revert acc. induction s as [|c s IH]; intros acc.
  - simpl. f_equal. lia.
  - cbn [int_digits String.length]. destruct (digit 2 c) as [d|]; [|done].
    rewrite (IH (2 * acc + d)), (IH (2 * 0 + d)).
    destruct (int_digits 2 s 0) as [w|]; [|done]. simpl. f_equal.
    rewrite Nat2Z.inj_succ, Z.pow_succ_r by lia. lia.
Qed.

(** The first four digits of a byte spell its high nibble. *)
Lemma high_nibble_digits b :
  let s := String.substring 0 4 (format_08b b) in
  String.length s = 4%nat ∧ int_digits 2 s 0 = Ok (u8 b / 16) ∧
  Z.land (u8 b) 0xF0 = 16 * (u8 b / 16).
Proof. destruct b; vm_compute; split_and!; reflexivity. Qed.

Lemma nibbles_lor x y :
  0 ≤ x < 16 → 0 ≤ y < 16 → Z.lor (16 * x) y = 16 * x + y.
Proof.
  intros Hx Hy.
  assert (forallb (λ x, forallb (λ y, Z.lor (16 * x) y =? 16 * x + y)
                     (seqZ 0 16)) (seqZ 0 16) = true) as Hall
    by (vm_compute; reflexivity).
  rewrite forallb_forall in Hall.
  specialize (Hall x). rewrite forallb_forall in Hall.
  apply Z.eqb_eq, Hall; apply list_elem_of_In, elem_of_seqZ; lia.
Qed.

(** The mapper number of two flag bytes, as the source computes it from
    their digits. *)
Lemma mapper_of_flags f7 f6 :
  int (String.substring 0 4 (format_08b f7)
       +:+ String.substring 0 4 (format_08b f6)) 2
  = Ok (Z.lor (Z.land (u8 f7) 0xF0) (Z.shiftr (u8 f6) 4)).
Proof.
  destruct (high_nibble_digits f7) as (Hlen7 & Hint7 & Hland7).
  destruct (high_nibble_digits f6) as (Hlen6 & Hint6 & _).
  cbv zeta in *.
  set (s7 := String.substring 0 4 (format_08b f7)) in *.
  set (s6 := String.substring 0 4 (format_08b f6)) in *.
  assert (int (s7 +:+ s6) 2 = int_digits 2 (s7 +:+ s6) 0) as ->.
  { destruct s7; [done|reflexivity]. }
  rewrite int_digits_app, Hint7. simpl.
  rewrite int_digits_shift, Hint6, Hlen6. simpl.
  f_equal. rewrite Hland7, Z.shiftr_div_pow2 by lia.
  change (2 ^ 4) with 16.
  pose proof (u8_range f7). pose proof (u8_range f6).
  rewrite nibbles_lor; [lia | |];
    (split; [apply Z.div_pos; lia | apply Z.div_lt_upper_bound; lia]).
Qed.

Lemma mapper_id_range f7 f6 :
  0 ≤ Z.lor (Z.land (u8 f7) 0xF0) (Z.shiftr (u8 f6) 4) ≤ 255.
Proof.
  destruct (high_nibble_digits f7) as (_ & _ & ->).
  rewrite Z.shiftr_div_pow2 by lia. change (2 ^ 4) with 16.
  pose proof (u8_range f7). pose proof (u8_range f6).
  assert (0 ≤ u8 f7 / 16 < 16 ∧ 0 ≤ u8 f6 / 16 < 16) as [? ?].
  { split; (split; [apply Z.div_pos; lia
                   | apply Z.div_lt_upper_bound; lia]). }
  rewrite nibbles_lor; lia.
Qed.

(** Whenever the mapper number can be read at all, it fits a byte. *)
Lemma mapper_range self id : mapper self = Ok id → 0 ≤ id ≤ 255.
Proof.
  unfold mapper, flags_7, flags_6. intros Hid.
  destruct (getitem (header self) 7) as [f7|]; [|done].
  destruct (getitem (header self) 6) as [f6|]; [|done].
  simpl in Hid. rewrite mapper_of_flags in Hid. injection Hid as <-.
  apply mapper_id_range.
Qed.

Lemma flagged_header_constructs :
  __init__ (one_file flagged_header) (Str "game.nes")
  = Ok {| raw_data := flagged_header |}.
Proof. vm_compute. reflexivity. Defined.

Lemma seven_bytes_constructs :
  __init__ (one_file seven_bytes) (Str "game.nes")
  = Ok {| raw_data := seven_bytes |}.
Proof. vm_compute. reflexivity. Defined.

Lemma nine_bytes_constructs :
  __init__ (one_file nine_bytes) (Str "game.nes")
  = Ok {| raw_data := nine_bytes |}.
Proof. vm_compute. reflexivity. Defined.

(** A header byte the file has, and the read of one it does not have. *)
Lemma header_byte_present self (i : nat) :
  (i < 16)%nat → (i < length (raw_data self))%nat →
  ∃ b, header self !! i = Some b ∧ getitem (header self) i = Ok b.
Proof.
  intros Hi Hlen.
  destruct (lookup_lt_is_Some_2 (raw_data self) i Hlen) as [b Hb].
  exists b. rewrite <- (header_lookup self i Hi) in Hb.
  split; [done | by apply getitem_lookup].
Qed.

Lemma header_byte_absent self (i : nat) :
  (length (raw_data self) ≤ i)%nat →
  getitem (header self) i = Raise IndexError.
Proof.
  intros Hlen. unfold getitem.
  rewrite (proj2 (lookup_ge_None (header self) i)); [done|].
  rewrite header_take, length_take. lia.
Qed.

(** C4, as stated, fails: a file of seven bytes with the magic number
    constructs, and it has no mapper number: reading it raises
    [IndexError]. *)
Lemma seven_bytes_no_mapper :
  __init__ (one_file seven_bytes) (Str "game.nes")
    = Ok {| raw_data := seven_bytes |} ∧
  mapper {| raw_data := seven_bytes |} = Raise IndexError.
Proof. split; vm_compute; reflexivity. Qed.

(** C4, amended: on a constructed instance of at least eight bytes the
    mapper number is [(flags7 & 0xF0) | (flags6 >> 4)], of header bytes 7
    and 6, and lies in [0, 255]; on a constructed instance of fewer bytes
    reading the mapper number raises [IndexError]. *)
Theorem mapper_of_constructed (fs : filesystem) rom_path self :
  __init__ fs rom_path = Ok self →
  ((7 < length (raw_data self))%nat →
   ∃ f6 f7,
     header self !! 6%nat = Some f6 ∧ header self !! 7%nat = Some f7 ∧
     mapper self = Ok (Z.lor (Z.land (u8 f7) 0xF0) (Z.shiftr (u8 f6) 4)) ∧
     0 ≤ Z.lor (Z.land (u8 f7) 0xF0) (Z.shiftr (u8 f6) 4) ≤ 255) ∧
  ((length (raw_data self) ≤ 7)%nat → mapper self = Raise IndexError).
Proof.
  intros _. split.
  - intros Hlen.
    destruct (header_byte_present self 6) as (f6 & H6 & Hget6); [lia..|].
    destruct (header_byte_present self 7) as (f7 & H7 & Hget7); [lia..|].
    exists f6, f7.
    split; [done|]. split; [done|]. split; [|apply mapper_id_range].
    unfold mapper, flags_7, flags_6. rewrite Hget6, Hget7, !bind_Ok.
    apply mapper_of_flags.
  - intros Hlen. unfold mapper, flags_7.
    by rewrite (header_byte_absent self 7 Hlen).
Qed.

Lemma mapper_of_constructed_witness :
  let self := {| raw_data := flagged_header |} in
  ((7 < length (raw_data self))%nat →
   ∃ f6 f7,
     header self !! 6%nat = Some f6 ∧ header self !! 7%nat = Some f7 ∧
     mapper self = Ok (Z.lor (Z.land (u8 f7) 0xF0) (Z.shiftr (u8 f6) 4)) ∧
     0 ≤ Z.lor (Z.land (u8 f7) 0xF0) (Z.shiftr (u8 f6) 4) ≤ 255) ∧
  ((length (raw_data self) ≤ 7)%nat → mapper self = Raise IndexError).
Proof.
  apply (mapper_of_constructed (one_file flagged_header) (Str "game.nes")
           {| raw_data := flagged_header |}).
  apply flagged_header_constructs.
Defined.

Example flagged_header_mapper :
  mapper {| raw_data := flagged_header |} = Ok 0x41.
Proof. vm_compute. reflexivity. Qed.

(** C5, as stated, fails: a file of nine bytes with the magic number
    constructs and its trainer flag reads as set, but it has no flags 9:
    reading the TV system raises [IndexError]. *)
Lemma nine_bytes_no_tv_system :
  __init__ (one_file nine_bytes) (Str "game.nes")
    = Ok {| raw_data := nine_bytes |} ∧
  has_trainer {| raw_data := nine_bytes |} = Ok true ∧
  is_pal {| raw_data := nine_bytes |} = Raise IndexError.
Proof. split_and!; vm_compute; reflexivity. Qed.

(** C5, amended: on a constructed instance of at least seven bytes the four
    flags of header byte 6 are the documented bits: four-screen is bit 3,
    vertical mirroring bit 0, the trainer bit 2 and battery-backed RAM
    bit 1; on one of at least ten bytes PAL is bit 0 of header byte 9.  On
    a constructed instance too short to hold the byte, reading the flag
    raises [IndexError]. *)
Theorem flags_of_constructed (fs : filesystem) rom_path self :
  __init__ fs rom_path = Ok self →
  ((6 < length (raw_data self))%nat →
   ∃ f6,
     header self !! 6%nat = Some f6 ∧
     is_ignore_mirroring self = Ok (Z.testbit (u8 f6) 3) ∧
     is_vertical_mirroring self = Ok (Z.testbit (u8 f6) 0) ∧
     has_trainer self = Ok (Z.testbit (u8 f6) 2) ∧
     has_battery_backed_ram self = Ok (Z.testbit (u8 f6) 1)) ∧
  ((length (raw_data self) ≤ 6)%nat →
   is_ignore_mirroring self = Raise IndexError ∧
   is_vertical_mirroring self = Raise IndexError ∧
   has_trainer self = Raise IndexError ∧
   has_battery_backed_ram self = Raise IndexError) ∧
  ((9 < length (raw_data self))%nat →
   ∃ f9,
     header self !! 9%nat = Some f9 ∧
     is_pal self = Ok (Z.testbit (u8 f9) 0)) ∧
  ((length (raw_data self) ≤ 9)%nat → is_pal self = Raise IndexError).
Proof.
  intros _.
  unfold is_ignore_mirroring, is_vertical_mirroring, has_trainer,
    has_battery_backed_ram, is_pal, flags_6, flags_9.
  split_and!.
  - intros Hlen.
    destruct (header_byte_present self 6) as (f6 & H6 & ->); [lia..|].
    exists f6. change (Ok f6 ≫= _) with (Ok (format_08b f6)).
    split_and!; [done |..]; by rewrite flag_at_format by lia.
  - intros Hlen. by rewrite (header_byte_absent self 6 Hlen).
  - intros Hlen.
    destruct (header_byte_present self 9) as (f9 & H9 & ->); [lia..|].
    exists f9. change (Ok f9 ≫= _) with (Ok (format_08b f9)).
    split; [done|]. by rewrite flag_at_format by lia.
  - intros Hlen. by rewrite (header_byte_absent self 9 Hlen).
Qed.

Lemma flags_of_constructed_witness :
  let self := {| raw_data := nine_bytes |} in
  ((6 < length (raw_data self))%nat →
   ∃ f6,
     header self !! 6%nat = Some f6 ∧
     is_ignore_mirroring self = Ok (Z.testbit (u8 f6) 3) ∧
     is_vertical_mirroring self = Ok (Z.testbit (u8 f6) 0) ∧
     has_trainer self = Ok (Z.testbit (u8 f6) 2) ∧
     has_battery_backed_ram self = Ok (Z.testbit (u8 f6) 1)) ∧
  ((length (raw_data self) ≤ 6)%nat →
   is_ignore_mirroring self = Raise IndexError ∧
   is_vertical_mirroring self = Raise IndexError ∧
   has_trainer self = Raise IndexError ∧
   has_battery_backed_ram self = Raise IndexError) ∧
  ((9 < length (raw_data self))%nat →
   ∃ f9,
     header self !! 9%nat = Some f9 ∧
     is_pal self = Ok (Z.testbit (u8 f9) 0)) ∧
  ((length (raw_data self) ≤ 9)%nat → is_pal self = Raise IndexError).
Proof.
  apply (flags_of_constructed (one_file nine_bytes) (Str "game.nes")
           {| raw_data := nine_bytes |}).
  apply nine_bytes_constructs.
Defined.

Example flagged_header_flags :
  let self := {| raw_data := flagged_header |} in
  is_ignore_mirroring self = Ok true ∧ is_vertical_mirroring self = Ok false ∧
  has_trainer self = Ok false ∧ has_battery_backed_ram self = Ok true ∧
  is_pal self = Ok true ∧ has_play_choice_10 self = Ok false ∧
  has_vs_unisystem self = Ok false.
Proof. split_and!; vm_compute; reflexivity. Qed.

(** A header too short to hold the flag bytes has no flags to read. *)
Example magic_only_flags :
  read magic_only mapper = Raise IndexError ∧
  read magic_only has_trainer = Raise IndexError ∧
  read magic_only is_pal = Raise IndexError.
Proof. split_and!; vm_compute; reflexivity. Qed.

(** ** Program RAM *)

(** C3, as stated, fails: with zero program-RAM units (scenario A) the
    exposed size is 8, the size in KiB, not 8192. *)
Lemma prg_ram_size_is_not_bytes :
  read scenario_a (λ self, getitem (header self) 8) = Ok x00 ∧
  read scenario_a (prg_ram_size ValueBased) = Ok 8 ∧
  read scenario_a (prg_ram_size NEP50) = Ok 8 ∧
  8 ≠ 8192 * (if u8 x00 =? 0 then 1 else u8 x00).
Proof. split_and!; vm_compute; (reflexivity || discriminate). Qed.

(** C3, amended: the exposed program-RAM size is in KiB; for a unit count
    below 32 it is [8 * (units == 0 ? 1 : units)], and 8 when the count is
    zero. *)
Theorem prg_ram_size_kib p (fs : filesystem) rom_path self units :
  __init__ fs rom_path = Ok self →
  header self !! 8%nat = Some units →
  u8 units < 32 →
  prg_ram_size p self = Ok (8 * (if u8 units =? 0 then 1 else u8 units)) ∧
  (u8 units = 0 → prg_ram_size p self = Ok 8).
Proof.
  intros _ H8 Hsmall. unfold prg_ram_size.
  rewrite (getitem_lookup _ _ _ H8). simpl.
  pose proof (u8_range units).
  destruct (Z.eqb_spec (u8 units) 0) as [Hz|Hnz].
  - done.
  - split; [|done]. f_equal. destruct p; simpl; [done|].
    apply Z.mod_small. lia.
Qed.

Lemma prg_ram_size_kib_witness :
  let self := {| raw_data := flagged_header |} in
  prg_ram_size NEP50 self
    = Ok (8 * (if u8 x02 =? 0 then 1 else u8 x02)) ∧
  (u8 x02 = 0 → prg_ram_size NEP50 self = Ok 8).
Proof.
  apply (prg_ram_size_kib NEP50 (one_file flagged_header) (Str "game.nes")
           {| raw_data := flagged_header |} x02).
  - apply flagged_header_constructs.
  - reflexivity.
  - vm_compute. reflexivity.
Defined.

(** Without the bound, the product is exact under value-based promotion and
    wraps at 256 under NEP 50. *)
Lemma prg_ram_size_value_based self units :
  header self !! 8%nat = Some units →
  prg_ram_size ValueBased self
  = Ok (8 * (if u8 units =? 0 then 1 else u8 units)).
Proof.
  intros H8. unfold prg_ram_size. rewrite (getitem_lookup _ _ _ H8). simpl.
  by destruct (u8 units =? 0).
Qed.

Example prg_ram_size_wraps :
  let self := {| raw_data := ines_header x00 x00 x00 x00 x20 x00 zero_fill5 |} in
  prg_ram_size NEP50 self = Ok 0 ∧ prg_ram_size ValueBased self = Ok 256.
Proof. split; vm_compute; reflexivity. Qed.

(** ** Region boundaries *)

Section boundaries.
Context (self : ROM) (prg chr f6 : byte).
Hypothesis Hprg : header self !! 4%nat = Some prg.
Hypothesis Hchr : header self !! 5%nat = Some chr.
Hypothesis Hf6 : header self !! 6%nat = Some f6.

Lemma has_trainer_bit : has_trainer self = Ok (Z.testbit (u8 f6) 2).
Proof.
  unfold has_trainer, flags_6. rewrite (getitem_lookup _ _ _ Hf6).
  change (Ok f6 ≫= _) with (Ok (format_08b f6)).
  by rewrite flag_at_format by lia.
Qed.

Lemma trainer_rom_stop_eq : trainer_rom_stop self = Ok (trainer_end f6).
Proof.
  unfold trainer_rom_stop, trainer_end.
  rewrite has_trainer_bit, bind_Ok.
  by destruct (Z.testbit (u8 f6) 2).
Qed.

Lemma prg_rom_stop_eq :
  prg_rom_stop self = Ok (trainer_end f6 + 16384 * u8 prg).
Proof.
  unfold prg_rom_stop, prg_rom_start, prg_rom_size.
  rewrite trainer_rom_stop_eq, (getitem_lookup _ _ _ Hprg), !bind_Ok.
  f_equal. lia.
Qed.

Lemma chr_rom_stop_eq :
  chr_rom_stop self
  = Ok (trainer_end f6 + 16384 * u8 prg + 8192 * u8 chr).
Proof.
  unfold chr_rom_stop, chr_rom_start, chr_rom_size.
  rewrite prg_rom_stop_eq, (getitem_lookup _ _ _ Hchr), !bind_Ok.
  f_equal. lia.
Qed.

Lemma trainer_end_range : 16 ≤ trainer_end f6 ≤ 528.
Proof. unfold trainer_end. destruct (Z.testbit (u8 f6) 2); lia. Qed.

(** The three views, whatever the length of the file. *)
Lemma trainer_rom_eq :
  trainer_rom self
  = Ok (slice (Some 16) (Some (trainer_end f6)) (raw_data self)).
Proof. unfold trainer_rom. by rewrite trainer_rom_stop_eq. Qed.

Lemma prg_rom_eq :
  prg_rom self
  = Ok (slice (Some (trainer_end f6))
          (Some (trainer_end f6 + 16384 * u8 prg)) (raw_data self)).
Proof.
  unfold prg_rom, prg_rom_start.
  by rewrite trainer_rom_stop_eq, prg_rom_stop_eq.
Qed.

Lemma chr_rom_eq :
  chr_rom self
  = Ok (slice (Some (trainer_end f6 + 16384 * u8 prg))
          (Some (trainer_end f6 + 16384 * u8 prg + 8192 * u8 chr))
          (raw_data self)).
Proof.
  unfold chr_rom, chr_rom_start.
  by rewrite prg_rom_stop_eq, chr_rom_stop_eq.
Qed.

(** On a file that reaches the end of CHR ROM every view has its declared
    length. *)
Lemma complete_image_lengths :
  trainer_end f6 + 16384 * u8 prg + 8192 * u8 chr ≤ len (raw_data self) →
  len <$> trainer_rom self
    = Ok (if Z.testbit (u8 f6) 2 then 512 else 0) ∧
  len <$> prg_rom self = Ok (16384 * u8 prg) ∧
  len <$> chr_rom self = Ok (8192 * u8 chr).
Proof.
  intros Hlen. pose proof trainer_end_range.
  pose proof (u8_range prg). pose proof (u8_range chr).
  rewrite trainer_rom_eq, prg_rom_eq, chr_rom_eq.
  rewrite !fmap_Ok, !len_slice by lia.
  split_and!; f_equal; [|lia|lia].
  unfold trainer_end in *. destruct (Z.testbit (u8 f6) 2); lia.
Qed.

End boundaries.

(** A header with flags 6 has the two size bytes before it. *)
Lemma header_fields self :
  (6 < length (raw_data self))%nat →
  ∃ prg chr f6, header self !! 4%nat = Some prg ∧
    header self !! 5%nat = Some chr ∧ header self !! 6%nat = Some f6.
Proof.
  intros Hlen.
  destruct (lookup_lt_is_Some_2 (raw_data self) 4) as [prg Hprg]; [lia|].
  destruct (lookup_lt_is_Some_2 (raw_data self) 5) as [chr Hchr]; [lia|].
  destruct (lookup_lt_is_Some_2 (raw_data self) 6) as [f6 Hf6]; [lia|].
  exists prg, chr, f6. by rewrite !header_lookup by lia.
Qed.

(** The boundaries can be computed only from a header with flags 6. *)
Lemma prg_rom_stop_ok_inv self stop :
  prg_rom_stop self = Ok stop → (6 < length (raw_data self))%nat.
Proof.
  unfold prg_rom_stop, prg_rom_start, trainer_rom_stop, has_trainer,
    flags_6, flag_at.
  destruct (getitem (header self) 6) as [f6|] eqn:H6; [|done].
  intros _. apply getitem_ok_inv in H6.
  rewrite header_lookup in H6 by lia. by apply lookup_lt_Some in H6.
Qed.

Lemma chr_rom_stop_ok_inv self stop :
  chr_rom_stop self = Ok stop → (6 < length (raw_data self))%nat.
Proof.
  unfold chr_rom_stop, chr_rom_start.
  destruct (prg_rom_stop self) as [s|] eqn:Hs; [|done].
  intros _. by apply (prg_rom_stop_ok_inv self s).
Qed.


Lemma scenario_b_constructs :
  __init__ (one_file scenario_b) (Str "game.nes")
  = Ok {| raw_data := scenario_b |}.
Proof. vm_compute. reflexivity. Defined.



Example trainer_header_boundaries :
  let self := {| raw_data := trainer_header |} in
  trainer_rom_stop self = Ok 528 ∧ prg_rom_start self = Ok 528 ∧
  prg_rom_stop self = Ok 33296 ∧ chr_rom_start self = Ok 33296 ∧
  chr_rom_stop self = Ok 41488.
Proof. split_and!; vm_compute; reflexivity. Qed.

(** ** Region views of a truncated file *)

(** C1 does not hold of the code: when a computed end boundary lies beyond
    the file, reading PRG ROM and CHR ROM still returns a view, because a
    slice is clipped to the array and raises nothing. *)
Theorem truncated_rom_reads_without_error
    (fs : filesystem) rom_path self stop :
  __init__ fs rom_path = Ok self →
  prg_rom_stop self = Ok stop ∨ chr_rom_stop self = Ok stop →
  len (raw_data self) < stop →
  ∃ p c, prg_rom self = Ok p ∧ chr_rom self = Ok c.
Proof.
  intros _ Hstop _.
  assert (6 < length (raw_data self))%nat as Hlong.
  { destruct Hstop as [H|H];
      [by apply prg_rom_stop_ok_inv in H | by apply chr_rom_stop_ok_inv in H]. }
  apply header_fields in Hlong as (prg & chr & f6 & Hprg & Hchr & Hf6).
  eexists _, _. split.
  - by apply prg_rom_eq.
  - by apply chr_rom_eq.
Qed.

Lemma truncated_rom_reads_without_error_witness :
  ∃ p c, prg_rom {| raw_data := scenario_b |} = Ok p ∧
         chr_rom {| raw_data := scenario_b |} = Ok c.
Proof.
  apply (truncated_rom_reads_without_error (one_file scenario_b)
           (Str "game.nes") {| raw_data := scenario_b |} 32784).
  - apply scenario_b_constructs.
  - left. vm_compute. reflexivity.
  - vm_compute. reflexivity.
Defined.

(** The handler of [prg_rom] and [chr_rom] is reached only when the header
    itself is too short to hold the size and flag bytes. *)
Example magic_only_regions :
  read magic_only prg_rom
    = Raise (ValueError "failed to read PRG-ROM on ROM.") ∧
  read magic_only chr_rom
    = Raise (ValueError "failed to read CHR-ROM on ROM.") ∧
  read magic_only trainer_rom = Raise IndexError.
Proof. split_and!; vm_compute; reflexivity. Qed.

(** C2 does not hold of the code: scenario B, cut to 1000 bytes, declares
    32 KiB of PRG ROM and 8 KiB of CHR ROM, constructs, and its views have
    984 and 0 bytes. *)
Theorem truncated_rom_short_views :
  read scenario_b (λ self, Ok (len (raw_data self))) = Ok 1000 ∧
  read scenario_b prg_rom_size = Ok 32 ∧
  read scenario_b chr_rom_size = Ok 8 ∧
  len <$> read scenario_b prg_rom = Ok 984 ∧
  len <$> read scenario_b chr_rom = Ok 0.
Proof. split_and!; vm_compute; reflexivity. Qed.

(** C6 does not hold of the code: a file that ends with a header whose
    trainer bit is set constructs and every region reads without error, yet
    its trainer view is empty. *)
Theorem trainer_bit_without_trainer :
  read trainer_header has_trainer = Ok true ∧
  len <$> read trainer_header trainer_rom = Ok 0 ∧
  read trainer_header prg_rom_start = Ok 528 ∧
  read trainer_header prg_rom = Ok [] ∧
  read trainer_header chr_rom = Ok [].
Proof. split_and!; vm_compute; reflexivity. Qed.

(** What the two claims say does hold of every file that reaches the end of
    its CHR ROM. *)
Lemma complete_image_views self prg chr f6 t :
  header self !! 4%nat = Some prg →
  header self !! 5%nat = Some chr →
  header self !! 6%nat = Some f6 →
  trainer_end f6 + 16384 * u8 prg + 8192 * u8 chr ≤ len (raw_data self) →
  has_trainer self = Ok t →
  len <$> prg_rom self = Ok (16384 * u8 prg) ∧
  len <$> chr_rom self = Ok (8192 * u8 chr) ∧
  len <$> trainer_rom self = Ok (if t then 512 else 0) ∧
  (t = true → trainer_rom_stop self = Ok 528 ∧ prg_rom_start self = Ok 528).
Proof.
  intros Hprg Hchr Hf6 Hlen Ht.
  rewrite (has_trainer_bit _ _ Hf6) in Ht.
  assert (t = Z.testbit (u8 f6) 2) as -> by congruence.
  destruct (complete_image_lengths _ _ _ _ Hprg Hchr Hf6 Hlen)
    as (Htr & Hp & Hc).
  split_and!; [done | done | done |].
  intros Hbit. unfold prg_rom_start.
  rewrite (trainer_rom_stop_eq _ _ Hf6). unfold trainer_end.
  by rewrite Hbit.
Qed.

(** ** Construction, in full *)

(** X1: construction returns an instance exactly for a string that names an
    existing file whose first four bytes are the magic number and whose
    reserved bytes are all zero, and the instance holds the content of the
    file unchanged. *)
Theorem init_ok_iff (fs : filesystem) rom_path self :
  __init__ fs rom_path = Ok self ↔
  ∃ path, rom_path = Str path ∧ fs !! path = Some (raw_data self) ∧
    take 4 (raw_data self) = magic_bytes ∧
    Forall (λ b, b = x00) (reserved (raw_data self)).
Proof.
  split.
  - intros (path & -> & Hfile & Hmagic & Hfill)%init_ok_inv.
    exists path. by rewrite <- total_zero.
  - intros (path & -> & Hfile & Hmagic & Hfill%total_zero).
    rewrite (init_cases _ _ _ Hfile), !decide_True by done.
    by destruct self.
Qed.

(** X2: [TypeError] is raised exactly for an argument that is not a
    string, whatever files there are, and the [ValueError] that names the
    path is raised only for a path that names no file: an existing file,
    whatever its content, ends in an instance or in one of the two header
    errors. *)
Theorem init_argument_errors (fs : filesystem) rom_path :
  (__init__ fs rom_path = Raise (TypeError "rom_path must be of type: str.")
   ↔ ∀ path, rom_path ≠ Str path) ∧
  (∀ path content,
     rom_path = Str path → fs !! path = Some content →
     __init__ fs rom_path = Ok {| raw_data := content |} ∨
     __init__ fs rom_path
       = Raise (ValueError "ROM missing magic number in header.") ∨
     __init__ fs rom_path
       = Raise (ValueError "ROM header zero fill bytes are not zero.")) ∧
  (∀ path,
     rom_path = Str path →
     __init__ fs rom_path
     = Raise (ValueError
                ("rom_path points to non-existent file: " +:+ path +:+ "."))
     → fs !! path = None).
Proof.
  split_and!.
  - split.
    + intros Hinit path ->.
      destruct (fs !! path) as [content|] eqn:Hfile.
      * rewrite (init_cases _ _ _ Hfile) in Hinit. by repeat case_decide.
      * simpl in Hinit. by rewrite Hfile in Hinit.
    + intros Hne. destruct rom_path as [path| | |]; try done.
      by destruct (Hne path).
  - intros path content -> Hfile. rewrite (init_cases _ _ _ Hfile).
    repeat case_decide; tauto.
  - intros path -> Hinit.
    destruct (fs !! path) as [content|] eqn:Hfile; [|done].
    rewrite (init_cases _ _ _ Hfile) in Hinit. by repeat case_decide.
Qed.

(** X3: validation reads the header and nothing else: two files with the
    same first sixteen bytes are both accepted or both rejected, with the
    same error. *)
Theorem validation_reads_header_only
    (fs1 fs2 : filesystem) path content1 content2 :
  fs1 !! path = Some content1 →
  fs2 !! path = Some content2 →
  take 16 content1 = take 16 content2 →
  (__init__ fs1 (Str path) = Ok {| raw_data := content1 |}
   ↔ __init__ fs2 (Str path) = Ok {| raw_data := content2 |}) ∧
  (∀ e, __init__ fs1 (Str path) = Raise e
        ↔ __init__ fs2 (Str path) = Raise e).
Proof.
  intros Hfile1 Hfile2 Hhead.
  assert (take 4 content1 = take 4 content2) as Hmagic.
  { transitivity (take 4 (take 16 content1)); [by rewrite take_take|].
    rewrite Hhead. by rewrite take_take. }
  assert (reserved content1 = reserved content2) as Hres.
  { unfold reserved. rewrite !(take_drop_commute _ 5 11). simpl.
    by rewrite Hhead. }
  rewrite (init_cases _ _ _ Hfile1), (init_cases _ _ _ Hfile2), Hmagic, Hres.
  split; [|intros e]; repeat case_decide; split; done.
Qed.

Lemma validation_reads_header_only_witness :
  (__init__ (one_file scenario_a) (Str "game.nes")
     = Ok {| raw_data := scenario_a |}
   ↔ __init__ (one_file scenario_b) (Str "game.nes")
     = Ok {| raw_data := scenario_b |}) ∧
  (∀ e, __init__ (one_file scenario_a) (Str "game.nes") = Raise e
        ↔ __init__ (one_file scenario_b) (Str "game.nes") = Raise e).
Proof.
  apply (validation_reads_header_only (one_file scenario_a)
           (one_file scenario_b) "game.nes" scenario_a scenario_b).
  - apply one_file_lookup.
  - apply one_file_lookup.
  - reflexivity.
Defined.

(** ** The header fields, in full *)

Lemma format_08b_roundtrip b :
  String.length (format_08b b) = 8%nat ∧ int (format_08b b) 2 = Ok (u8 b).
Proof. destruct b; vm_compute; split; reflexivity. Qed.

Lemma getitem_short {A} (a : list A) (i : nat) :
  getitem a i = Raise IndexError ↔ (length a ≤ i)%nat.
Proof.
  unfold getitem. rewrite <- lookup_ge_None.
  destruct (a !! i); split; done.
Qed.

Lemma header_length self :
  length (header self) = (length (raw_data self) `min` 16)%nat.
Proof. rewrite header_take, length_take. lia. Qed.

(** X4: the two bits of flags 7 that the emulator ignores are decoded all
    the same: PlayChoice-10 is bit 1 and VS Unisystem is bit 0. *)
Theorem flags_7_low_bits self f7 :
  header self !! 7%nat = Some f7 →
  has_play_choice_10 self = Ok (Z.testbit (u8 f7) 1) ∧
  has_vs_unisystem self = Ok (Z.testbit (u8 f7) 0).
Proof.
  intros H7. unfold has_play_choice_10, has_vs_unisystem, flags_7.
  rewrite (getitem_lookup _ _ _ H7).
  change (Ok f7 ≫= _) with (Ok (format_08b f7)).
  split; by rewrite flag_at_format by lia.
Qed.

Lemma flags_7_low_bits_witness :
  let self := {| raw_data := ines_header x00 x00 x00 x02 x00 x00 zero_fill5 |} in
  has_play_choice_10 self = Ok (Z.testbit (u8 x02) 1) ∧
  has_vs_unisystem self = Ok (Z.testbit (u8 x02) 0).
Proof.
  apply (flags_7_low_bits
           {| raw_data := ines_header x00 x00 x00 x02 x00 x00 zero_fill5 |}
           x02).
  reflexivity.
Defined.

(** X5: each of the four flag properties is the header byte written as
    exactly eight binary digits: reading the text back in base two gives the
    byte. *)
Theorem flags_are_binary_text self (i : nat) b :
  header self !! i = Some b →
  ∀ flags, (i = 6%nat ∧ flags = flags_6 self) ∨
           (i = 7%nat ∧ flags = flags_7 self) ∨
           (i = 9%nat ∧ flags = flags_9 self) ∨
           (i = 10%nat ∧ flags = flags_10 self) →
  ∃ s, flags = Ok s ∧ String.length s = 8%nat ∧ int s 2 = Ok (u8 b).
Proof.
  intros Hb flags Hflags. exists (format_08b b).
  split; [|apply format_08b_roundtrip].
  destruct Hflags as [[-> ->]|[[-> ->]|[[-> ->]|[-> ->]]]];
    unfold flags_6, flags_7, flags_9, flags_10;
    by rewrite (getitem_lookup _ _ _ Hb).
Qed.

Lemma flags_are_binary_text_witness :
  ∃ s, flags_6 {| raw_data := flagged_header |} = Ok s ∧
       String.length s = 8%nat ∧ int s 2 = Ok (u8 x1a).
Proof.
  apply (flags_are_binary_text {| raw_data := flagged_header |} 6 x1a).
  - reflexivity.
  - left. split; reflexivity.
Defined.

(** X6: an instance can be shorter than its header, and then a header field
    has nothing to read: the property for header byte [i] raises
    [IndexError] exactly when the file has at most [i] bytes. *)
Theorem short_header_field_raises p self :
  (prg_rom_size self = Raise IndexError ↔ (length (raw_data self) ≤ 4)%nat) ∧
  (chr_rom_size self = Raise IndexError ↔ (length (raw_data self) ≤ 5)%nat) ∧
  (flags_6 self = Raise IndexError ↔ (length (raw_data self) ≤ 6)%nat) ∧
  (flags_7 self = Raise IndexError ↔ (length (raw_data self) ≤ 7)%nat) ∧
  (prg_ram_size p self = Raise IndexError
   ↔ (length (raw_data self) ≤ 8)%nat) ∧
  (flags_9 self = Raise IndexError ↔ (length (raw_data self) ≤ 9)%nat) ∧
  (flags_10 self = Raise IndexError ↔ (length (raw_data self) ≤ 10)%nat).
Proof.
  assert (∀ (i : nat) {A} (k : byte → result A),
            (i < 16)%nat → (∀ b, k b ≠ Raise IndexError) →
            (getitem (header self) i ≫= k) = Raise IndexError
            ↔ (length (raw_data self) ≤ i)%nat) as Hfield.
  { intros i A k Hi Hk.
    destruct (header self !! i) as [b|] eqn:Hb.
    - rewrite (getitem_lookup _ _ _ Hb), bind_Ok.
      apply lookup_lt_Some in Hb. rewrite header_length in Hb.
      split; [by intros ?%Hk | lia].
    - assert (getitem (header self) i = Raise IndexError) as ->
        by (unfold getitem; by rewrite Hb).
      apply lookup_ge_None in Hb. rewrite header_length in Hb.
      split; [lia | done]. }
  unfold prg_rom_size, chr_rom_size, flags_6, flags_7, prg_ram_size,
    flags_9, flags_10.
  split_and!; apply Hfield; try lia; try done.
  intros b. by destruct (u8 b =? 0).
Qed.

Example magic_only_header_fields :
  let self := {| raw_data := magic_only |} in
  prg_rom_size self = Raise IndexError ∧ flags_10 self = Raise IndexError.
Proof. split; vm_compute; reflexivity. Qed.

(** ** The region views, in full *)

Section more_slices.
Context {A : Type}.
Implicit Types (a : list A) (i j k : Z).

Lemma slice_app a i j k :
  0 ≤ i → i ≤ j → j ≤ k →
  slice (Some i) (Some j) a ++ slice (Some j) (Some k) a
  = slice (Some i) (Some k) a.
Proof.
  intros Hi Hj Hk. rewrite !slice_range by lia.
  replace (drop (Z.to_nat j) a)
    with (drop (Z.to_nat j - Z.to_nat i) (drop (Z.to_nat i) a))
    by (rewrite drop_drop; f_equal; lia).
  rewrite take_take_drop. f_equal. lia.
Qed.

Lemma slice_whole a i :
  0 ≤ i → slice (Some 0) (Some i) a ++ slice (Some i) None a = a.
Proof.
  intros Hi. rewrite slice_range, slice_suffix by lia.
  change (Z.to_nat 0) with 0%nat. rewrite Nat.sub_0_r. apply take_drop.
Qed.

Lemma slice_lookup a i j (n : nat) :
  0 ≤ i → 0 ≤ j →
  slice (Some i) (Some j) a !! n
  = if decide (i + Z.of_nat n < j) then a !! (Z.to_nat i + n)%nat else None.
Proof.
  intros Hi Hj. rewrite slice_range by lia. case_decide.
  - rewrite lookup_take_lt by lia. apply lookup_drop.
  - apply lookup_take_ge. lia.
Qed.

Lemma slice_app_l a extra i j :
  0 ≤ i → 0 ≤ j → j ≤ len a →
  slice (Some i) (Some j) (a ++ extra) = slice (Some i) (Some j) a.
Proof.
  intros Hi Hj Hlen. unfold len in Hlen. rewrite !slice_range by lia.
  destruct (Z.le_gt_cases i j).
  - rewrite drop_app_le by lia. apply take_app_le.
    rewrite length_drop. lia.
  - replace (Z.to_nat j - Z.to_nat i)%nat with 0%nat by lia. done.
Qed.

End more_slices.

Section all_views.
Context (self : ROM) (prg chr f6 : byte).
Hypothesis Hprg : header self !! 4%nat = Some prg.
Hypothesis Hchr : header self !! 5%nat = Some chr.
Hypothesis Hf6 : header self !! 6%nat = Some f6.

Lemma boundaries_ordered :
  16 ≤ trainer_end f6 ∧
  trainer_end f6 ≤ trainer_end f6 + 16384 * u8 prg ∧
  trainer_end f6 + 16384 * u8 prg
  ≤ trainer_end f6 + 16384 * u8 prg + 8192 * u8 chr.
Proof.
  pose proof (trainer_end_range f6).
  pose proof (u8_range prg). pose proof (u8_range chr). lia.
Qed.

Lemma views_concat :
  raw_data self
  = header self
      ++ slice (Some 16) (Some (trainer_end f6)) (raw_data self)
      ++ slice (Some (trainer_end f6))
           (Some (trainer_end f6 + 16384 * u8 prg)) (raw_data self)
      ++ slice (Some (trainer_end f6 + 16384 * u8 prg))
           (Some (trainer_end f6 + 16384 * u8 prg + 8192 * u8 chr))
           (raw_data self)
      ++ slice (Some (trainer_end f6 + 16384 * u8 prg + 8192 * u8 chr))
           None (raw_data self).
Proof.
  destruct boundaries_ordered as (H1 & H2 & H3).
  assert (header self = slice (Some 0) (Some 16) (raw_data self)) as ->.
  { rewrite header_take, slice_range by lia. done. }
  rewrite !(assoc (++)).
  by rewrite !slice_app, slice_whole by lia.
Qed.

End all_views.

(** X7: the header and the three views tile the file: on an instance whose
    header reaches flags 6, the header, the trainer, PRG ROM, CHR ROM and
    the bytes after the end of CHR ROM, put end to end, are the file. *)
Theorem views_partition self :
  (6 < length (raw_data self))%nat →
  ∃ t p c stop,
    trainer_rom self = Ok t ∧ prg_rom self = Ok p ∧ chr_rom self = Ok c ∧
    chr_rom_stop self = Ok stop ∧
    raw_data self
    = header self ++ t ++ p ++ c ++ slice (Some stop) None (raw_data self).
Proof.
  intros (prg & chr & f6 & Hprg & Hchr & Hf6)%header_fields.
  eexists _, _, _, _. split_and!.
  - by apply trainer_rom_eq.
  - by apply prg_rom_eq.
  - by apply chr_rom_eq.
  - by apply chr_rom_stop_eq.
  - by apply views_concat.
Qed.

Lemma views_partition_witness :
  let self := {| raw_data := scenario_b |} in
  ∃ t p c stop,
    trainer_rom self = Ok t ∧ prg_rom self = Ok p ∧ chr_rom self = Ok c ∧
    chr_rom_stop self = Ok stop ∧
    raw_data self
    = header self ++ t ++ p ++ c ++ slice (Some stop) None (raw_data self).
Proof.
  apply (views_partition {| raw_data := scenario_b |}).
  vm_compute. lia.
Defined.

(** The boundaries of an instance whose boundaries can be computed. *)
Lemma boundaries_inv self t p c :
  trainer_rom_stop self = Ok t →
  prg_rom_stop self = Ok p →
  chr_rom_stop self = Ok c →
  16 ≤ t ∧ t ≤ p ∧ p ≤ c ∧
  trainer_rom self = Ok (slice (Some 16) (Some t) (raw_data self)) ∧
  prg_rom self = Ok (slice (Some t) (Some p) (raw_data self)) ∧
  chr_rom self = Ok (slice (Some p) (Some c) (raw_data self)).
Proof.
  intros Ht Hp Hc.
  destruct (header_fields self (chr_rom_stop_ok_inv _ _ Hc))
    as (prg & chr & f6 & Hprg & Hchr & Hf6).
  rewrite (trainer_rom_stop_eq _ _ Hf6) in Ht.
  rewrite (prg_rom_stop_eq _ _ _ Hprg Hf6) in Hp.
  rewrite (chr_rom_stop_eq _ _ _ _ Hprg Hchr Hf6) in Hc.
  simplify_eq.
  destruct (boundaries_ordered prg chr f6) as (H1 & H2 & H3).
  split_and!; try done.
  - by apply trainer_rom_eq.
  - by apply prg_rom_eq.
  - by apply chr_rom_eq.
Qed.

(** X8: a view holds the bytes of the file between its boundaries and no
    others: byte [n] of PRG ROM is byte [prg_rom_start + n] of the file as
    long as that offset is before [prg_rom_stop], and likewise for the
    trainer and CHR ROM. *)
Theorem view_lookup self t p c (n : nat) :
  trainer_rom_stop self = Ok t →
  prg_rom_stop self = Ok p →
  chr_rom_stop self = Ok c →
  ∃ vt vp vc,
    trainer_rom self = Ok vt ∧ prg_rom self = Ok vp ∧ chr_rom self = Ok vc ∧
    vt !! n = (if decide (16 + Z.of_nat n < t)
               then raw_data self !! (16 + n)%nat else None) ∧
    vp !! n = (if decide (t + Z.of_nat n < p)
               then raw_data self !! (Z.to_nat t + n)%nat else None) ∧
    vc !! n = (if decide (p + Z.of_nat n < c)
               then raw_data self !! (Z.to_nat p + n)%nat else None).
Proof.
  intros Ht Hp Hc.
  destruct (boundaries_inv _ _ _ _ Ht Hp Hc)
    as (H1 & H2 & H3 & Hvt & Hvp & Hvc).
  eexists _, _, _. split_and!; [done | done | done | | |].
  - by rewrite slice_lookup by lia.
  - by rewrite slice_lookup by lia.
  - by rewrite slice_lookup by lia.
Qed.

Lemma view_lookup_witness :
  let self := {| raw_data := scenario_b |} in
  ∃ vt vp vc,
    trainer_rom self = Ok vt ∧ prg_rom self = Ok vp ∧ chr_rom self = Ok vc ∧
    vt !! 3%nat = (if decide (16 + Z.of_nat 3 < 16)
                   then raw_data self !! (16 + 3)%nat else None) ∧
    vp !! 3%nat = (if decide (16 + Z.of_nat 3 < 32784)
                   then raw_data self !! (Z.to_nat 16 + 3)%nat else None) ∧
    vc !! 3%nat = (if decide (32784 + Z.of_nat 3 < 40976)
                   then raw_data self !! (Z.to_nat 32784 + 3)%nat else None).
Proof.
  apply (view_lookup {| raw_data := scenario_b |} 16 32784 40976 3).
  - vm_compute. reflexivity.
  - vm_compute. reflexivity.
  - vm_compute. reflexivity.
Defined.

(** X9: reading a region fails only for want of a header: with at most six
    bytes, the trainer raises [IndexError] and PRG ROM and CHR ROM raise
    their [ValueError]; with more, all three return a view, whatever the
    file holds after the header. *)
Theorem region_read_outcomes self :
  ((length (raw_data self) ≤ 6)%nat →
   trainer_rom self = Raise IndexError ∧
   prg_rom self = Raise (ValueError "failed to read PRG-ROM on ROM.") ∧
   chr_rom self = Raise (ValueError "failed to read CHR-ROM on ROM.")) ∧
  ((6 < length (raw_data self))%nat →
   ∃ t p c,
     trainer_rom self = Ok t ∧ prg_rom self = Ok p ∧ chr_rom self = Ok c).
Proof.
  split.
  - intros Hshort.
    assert (flags_6 self = Raise IndexError) as Hflags.
    { unfold flags_6.
      assert (getitem (header self) 6 = Raise IndexError) as ->; [|done].
      apply getitem_short. rewrite header_length. lia. }
    assert (trainer_rom_stop self = Raise IndexError) as Hstop.
    { unfold trainer_rom_stop, has_trainer, flag_at. by rewrite Hflags. }
    unfold trainer_rom, prg_rom, chr_rom, chr_rom_stop, chr_rom_start,
      prg_rom_stop, prg_rom_start.
    by rewrite Hstop.
  - intros (prg & chr & f6 & Hprg & Hchr & Hf6)%header_fields.
    eexists _, _, _. split_and!.
    + by apply trainer_rom_eq.
    + by apply prg_rom_eq.
    + by apply chr_rom_eq.
Qed.

(** X10: the length of a view is its declared length clipped to the file:
    with [n] the length of the file, the trainer has
    [min(stop, n) - min(16, n)] bytes, and PRG ROM and CHR ROM likewise
    between their own boundaries; no view is longer than declared. *)
Theorem view_lengths_clipped self t p c :
  trainer_rom_stop self = Ok t →
  prg_rom_stop self = Ok p →
  chr_rom_stop self = Ok c →
  let n := len (raw_data self) in
  len <$> trainer_rom self = Ok (Z.min t n - Z.min 16 n) ∧
  len <$> prg_rom self = Ok (Z.min p n - Z.min t n) ∧
  len <$> chr_rom self = Ok (Z.min c n - Z.min p n) ∧
  Z.min t n - Z.min 16 n ≤ t - 16 ∧
  Z.min p n - Z.min t n ≤ p - t ∧
  Z.min c n - Z.min p n ≤ c - p.
Proof.
  intros Ht Hp Hc n.
  destruct (boundaries_inv _ _ _ _ Ht Hp Hc)
    as (H1 & H2 & H3 & -> & -> & ->).
  rewrite !fmap_Ok, !len_slice by lia. fold n.
  split_and!; try done; lia.
Qed.

Lemma view_lengths_clipped_witness :
  let self := {| raw_data := scenario_b |} in
  let n := len (raw_data self) in
  len <$> trainer_rom self = Ok (Z.min 16 n - Z.min 16 n) ∧
  len <$> prg_rom self = Ok (Z.min 32784 n - Z.min 16 n) ∧
  len <$> chr_rom self = Ok (Z.min 40976 n - Z.min 32784 n) ∧
  Z.min 16 n - Z.min 16 n ≤ 16 - 16 ∧
  Z.min 32784 n - Z.min 16 n ≤ 32784 - 16 ∧
  Z.min 40976 n - Z.min 32784 n ≤ 40976 - 32784.
Proof.
  apply (view_lengths_clipped {| raw_data := scenario_b |} 16 32784 40976).
  - vm_compute. reflexivity.
  - vm_compute. reflexivity.
  - vm_compute. reflexivity.
Defined.

(** X11: bytes after the end of CHR ROM are not interpreted: appending
    anything to a file that reaches its [chr_rom_stop] changes neither the
    header, nor a flag, nor a view. *)
Theorem trailing_bytes_ignored p self stop extra :
  chr_rom_stop self = Ok stop →
  stop ≤ len (raw_data self) →
  let self' := {| raw_data := raw_data self ++ extra |} in
  header self' = header self ∧
  mapper self' = mapper self ∧
  prg_ram_size p self' = prg_ram_size p self ∧
  trainer_rom self' = trainer_rom self ∧
  prg_rom self' = prg_rom self ∧
  chr_rom self' = chr_rom self.
Proof.
  intros Hstop Hlen self'.
  destruct (header_fields self (chr_rom_stop_ok_inv _ _ Hstop))
    as (prg & chr & f6 & Hprg & Hchr & Hf6).
  pose proof (chr_rom_stop_eq _ _ _ _ Hprg Hchr Hf6) as Hc.
  rewrite Hstop in Hc. injection Hc as ->.
  destruct (boundaries_ordered prg chr f6) as (H1 & H2 & H3).
  assert (header self' = header self) as Hhead.
  { rewrite !header_take. apply take_app_le. unfold len in Hlen. lia. }
  split_and!; [done | | | | |].
  - unfold mapper, flags_7, flags_6. by rewrite Hhead.
  - unfold prg_ram_size. by rewrite Hhead.
  - rewrite (trainer_rom_eq self f6 Hf6), (trainer_rom_eq self' f6)
      by (by rewrite Hhead).
    f_equal. apply slice_app_l; lia.
  - rewrite (prg_rom_eq self prg f6 Hprg Hf6), (prg_rom_eq self' prg f6)
      by (by rewrite Hhead).
    f_equal. apply slice_app_l; lia.
  - rewrite (chr_rom_eq self prg chr f6 Hprg Hchr Hf6),
      (chr_rom_eq self' prg chr f6) by (by rewrite Hhead).
    f_equal. apply slice_app_l; lia.
Qed.

Lemma trailing_bytes_ignored_witness :
  let self := {| raw_data := flagged_header |} in
  let self' := {| raw_data := raw_data self ++ [xff; xff] |} in
  header self' = header self ∧
  mapper self' = mapper self ∧
  prg_ram_size NEP50 self' = prg_ram_size NEP50 self ∧
  trainer_rom self' = trainer_rom self ∧
  prg_rom self' = prg_rom self ∧
  chr_rom self' = chr_rom self.
Proof.
  apply (trailing_bytes_ignored NEP50 {| raw_data := flagged_header |} 16
           [xff; xff]).
  - vm_compute. reflexivity.
  - vm_compute. discriminate.
Defined.

(** X12: sizes are in KiB and boundaries in bytes, and they agree: on an
    instance whose header reaches flags 6, [prg_rom_size] is at most 4080
    and [chr_rom_size] at most 2040, each region spans 1024 times its size,
    and no boundary lies beyond offset 6267408. *)
Theorem sizes_span_regions self :
  (6 < length (raw_data self))%nat →
  ∃ kp kc a b c,
    prg_rom_size self = Ok kp ∧ chr_rom_size self = Ok kc ∧
    prg_rom_start self = Ok a ∧ prg_rom_stop self = Ok b ∧
    chr_rom_stop self = Ok c ∧
    0 ≤ kp ≤ 4080 ∧ 0 ≤ kc ≤ 2040 ∧
    b - a = 1024 * kp ∧ c - b = 1024 * kc ∧ c ≤ 6267408.
Proof.
  intros (prg & chr & f6 & Hprg & Hchr & Hf6)%header_fields.
  pose proof (u8_range prg). pose proof (u8_range chr).
  pose proof (trainer_end_range f6).
  eexists _, _, _, _, _. split_and!.
  - unfold prg_rom_size. by rewrite (getitem_lookup _ _ _ Hprg).
  - unfold chr_rom_size. by rewrite (getitem_lookup _ _ _ Hchr).
  - by apply trainer_rom_stop_eq.
  - by apply prg_rom_stop_eq.
  - by apply chr_rom_stop_eq.
  - lia.
  - lia.
  - lia.
  - lia.
  - lia.
  - lia.
  - lia.
Qed.

Lemma sizes_span_regions_witness :
  let self := {| raw_data := trainer_header |} in
  ∃ kp kc a b c,
    prg_rom_size self = Ok kp ∧ chr_rom_size self = Ok kc ∧
    prg_rom_start self = Ok a ∧ prg_rom_stop self = Ok b ∧
    chr_rom_stop self = Ok c ∧
    0 ≤ kp ≤ 4080 ∧ 0 ≤ kc ≤ 2040 ∧
    b - a = 1024 * kp ∧ c - b = 1024 * kc ∧ c ≤ 6267408.
Proof.
  apply (sizes_span_regions {| raw_data := trainer_header |}).
  vm_compute. lia.
Defined.

(** X13: how [8 * size] is typed decides the program-RAM size of a large
    unit count.  Under value-based promotion it is [8 * max(1, units)] for
    every count, between 8 and 2040; under NEP 50 it is that value modulo
    256, so the two agree exactly for counts below 32. *)
Theorem prg_ram_size_by_promotion self units :
  header self !! 8%nat = Some units →
  let exact := 8 * Z.max 1 (u8 units) in
  prg_ram_size ValueBased self = Ok exact ∧
  prg_ram_size NEP50 self = Ok (exact mod 256) ∧
  8 ≤ exact ≤ 2040 ∧
  (prg_ram_size NEP50 self = prg_ram_size ValueBased self ↔ u8 units < 32).
Proof.
  intros H8 exact. pose proof (u8_range units).
  assert (prg_ram_size ValueBased self = Ok exact) as Hv.
  { unfold prg_ram_size. rewrite (getitem_lookup _ _ _ H8), bind_Ok.
    subst exact. destruct (Z.eqb_spec (u8 units) 0) as [->|];
      [done | unfold mul_int_u8; f_equal; lia]. }
  assert (prg_ram_size NEP50 self = Ok (exact mod 256)) as Hn.
  { unfold prg_ram_size. rewrite (getitem_lookup _ _ _ H8), bind_Ok.
    subst exact. destruct (Z.eqb_spec (u8 units) 0) as [->|];
      [done | unfold mul_int_u8; do 2 f_equal; lia]. }
  split_and!; [done | done | subst exact; lia | subst exact; lia |].
  rewrite Hv, Hn. split.
  - intros [= Hmod]. apply Z.mod_small_iff in Hmod; [|lia]. subst exact. lia.
  - intros Hsmall. f_equal. apply Z.mod_small. subst exact. lia.
Qed.

Lemma prg_ram_size_by_promotion_witness :
  let self := {| raw_data := ines_header x00 x00 x00 x00 x20 x00 zero_fill5 |} in
  let exact := 8 * Z.max 1 (u8 x20) in
  prg_ram_size ValueBased self = Ok exact ∧
  prg_ram_size NEP50 self = Ok (exact mod 256) ∧
  8 ≤ exact ≤ 2040 ∧
  (prg_ram_size NEP50 self = prg_ram_size ValueBased self ↔ u8 x20 < 32).
Proof.
  apply (prg_ram_size_by_promotion
           {| raw_data := ines_header x00 x00 x00 x00 x20 x00 zero_fill5 |}
           x20).
  reflexivity.
Defined.

(** ** Dictionaries *)

Section dict_facts.
Context {K V : Type} `{EqDecision K}.
Implicit Types (d : Dict.dict K V) (k : K) (v : V).

Lemma dict_get_set d k v k' :
  Dict.get (Dict.set d k v) k' = if decide (k' = k) then Some v else Dict.get d k'.
Proof.
  induction d as [|[k0 v0] d IH]; simpl.
  - by repeat case_decide.
  - destruct (decide (k = k0)) as [->|Hne]; simpl.
    + by repeat case_decide.
    + rewrite IH. repeat case_decide; congruence.
Qed.

Lemma dict_get_None d k : Dict.get d k = None ↔ k ∉ Dict.keys d.
Proof.
  unfold Dict.keys. induction d as [|[k0 v0] d IH]; simpl.
  - split; [intros _; apply not_elem_of_nil | done].
  - rewrite not_elem_of_cons. case_decide; [|tauto].
    split; [done | tauto].
Qed.

Lemma dict_get_elem d k v : Dict.get d k = Some v → (k, v) ∈ d.
Proof.
  induction d as [|[k0 v0] d IH]; simpl; [done|].
  case_decide as Hk.
  - intros [= ->]. subst. apply list_elem_of_here.
  - intros Hget. apply list_elem_of_further. by apply IH.
Qed.

Lemma dict_elem_get d k v :
  NoDup (Dict.keys d) → (k, v) ∈ d → Dict.get d k = Some v.
Proof.
  unfold Dict.keys. induction d as [|[k0 v0] d IH]; simpl.
  - by intros _ ?%elem_of_nil.
  - intros [Hnew Hnodup]%NoDup_cons [Heq|Hin]%elem_of_cons.
    + injection Heq as -> ->. by rewrite decide_True.
    + rewrite decide_False; [by apply IH|].
      intros ->. apply Hnew. apply list_elem_of_fmap. by exists (k0, v).
Qed.

(** A new key goes to the end. *)
Lemma dict_set_new d k v :
  k ∉ Dict.keys d → Dict.set d k v = d ++ [(k, v)].
Proof.
  unfold Dict.keys. induction d as [|[k0 v0] d IH]; simpl; [done|].
  intros [Hne Hnotin]%not_elem_of_cons.
  rewrite decide_False by done. by rewrite IH.
Qed.

Lemma dict_keys_set d k v :
  Dict.keys (Dict.set d k v)
  = if decide (k ∈ Dict.keys d) then Dict.keys d else Dict.keys d ++ [k].
Proof.
  case_decide as Hin.
  - unfold Dict.keys in *. induction d as [|[k0 v0] d IH]; simpl.
    + by apply elem_of_nil in Hin.
    + case_decide as Hk; [done|]. simpl. f_equal. apply IH.
      simpl in Hin. apply elem_of_cons in Hin as [?|?]; [done|done].
  - rewrite dict_set_new by done. unfold Dict.keys. by rewrite fmap_app.
Qed.

Lemma dict_set_NoDup d k v :
  NoDup (Dict.keys d) → NoDup (Dict.keys (Dict.set d k v)).
Proof.
  intros Hnodup. rewrite dict_keys_set. case_decide as Hin; [done|].
  apply NoDup_app. split_and!; [done | | apply NoDup_singleton].
  intros x Hx ->%list_elem_of_singleton. done.
Qed.

End dict_facts.

(** ** Buttons and bytes *)

Arguments Dict.get : simpl never.
Arguments Dict.set : simpl never.

Lemma land_pow2 x k :
  0 ≤ k → Z.land x (2 ^ k) = 2 ^ k ↔ Z.testbit x k = true.
Proof.
  intros Hk. split.
  - intros Hland.
    assert (Z.testbit (Z.land x (2 ^ k)) k = true) as Hbit
      by (rewrite Hland; by apply Z.pow2_bits_true).
    rewrite Z.land_spec in Hbit. by apply andb_true_iff in Hbit as [? _].
  - intros Hbit. apply Z.bits_inj'. intros n Hn.
    rewrite Z.land_spec, Z.pow2_bits_eqb by done.
    destruct (Z.eqb_spec k n) as [<-|]; [by rewrite Hbit | apply andb_false_r].
Qed.

Lemma lor_below a b n :
  0 ≤ n → 0 ≤ a < 2 ^ n → 0 ≤ b < 2 ^ n → 0 ≤ Z.lor a b < 2 ^ n.
Proof.
  intros Hn Ha Hb. split; [apply Z.lor_nonneg; lia|].
  destruct (decide (a = 0)) as [->|]; [by rewrite Z.lor_0_l; lia|].
  destruct (decide (b = 0)) as [->|]; [by rewrite Z.lor_0_r; lia|].
  assert (0 < Z.lor a b).
  { pose proof (Z.lor_nonneg a b). destruct (decide (Z.lor a b = 0)) as [H0|].
    - apply Z.lor_eq_0_iff in H0. lia.
    - lia. }
  apply Z.log2_lt_pow2; [done|]. rewrite Z.log2_lor by lia.
  apply Z.max_lub_lt; apply Z.log2_lt_pow2; lia.
Qed.

(** The entries of [_button_map], one by one. *)
Lemma button_map_cases button v :
  Dict.get JoypadSpace._button_map button = Some v →
  (button, v) ∈ JoypadSpace._button_map.
Proof. apply dict_get_elem. Qed.

Lemma button_known button :
  button ∈ JoypadSpace.buttons
  ↔ is_Some (Dict.get JoypadSpace._button_map button).
Proof.
  unfold JoypadSpace.buttons.
  destruct (Dict.get JoypadSpace._button_map button) as [v|] eqn:Hget.
  - split; [by eexists|]. intros _.
    destruct (decide (button ∈ Dict.keys JoypadSpace._button_map));
      [done|]. apply dict_get_None in n. congruence.
  - apply dict_get_None in Hget. split; [done | by intros [? ?]].
Qed.

Ltac button_cases H :=
  apply button_map_cases in H; unfold JoypadSpace._button_map in H;
  repeat (apply elem_of_cons in H as [H|H]); [..|by apply elem_of_nil in H];
  injection H as -> ->.

Lemma button_value_range button v :
  Dict.get JoypadSpace._button_map button = Some v → 0 ≤ v < 2 ^ 8.
Proof. intros H. button_cases H; lia. Qed.

(** Every button but NOOP has one bit of its own. *)
Lemma button_value_bit button v :
  Dict.get JoypadSpace._button_map button = Some v → v ≠ 0 →
  ∃ k, 0 ≤ k < 8 ∧ v = 2 ^ k.
Proof.
  intros H Hv.
  button_cases H; [exists 7 | exists 6 | exists 5 | exists 4 | exists 3
                  | exists 2 | exists 1 | exists 0 | done]; by split.
Qed.

Lemma button_mask_owner button v button' v' :
  Dict.get JoypadSpace._button_map button = Some v → v ≠ 0 →
  Dict.get JoypadSpace._button_map button' = Some v' →
  Z.land v' v = v ↔ button' = button.
Proof.
  intros H Hv H'. button_cases H; try done; button_cases H';
    (split; [by intros ?%(f_equal (λ z, z =? 0)) || done | by intros [=]]).
Qed.

Lemma byte_of_buttons_known button_list acc :
  Forall (λ button, button ∈ JoypadSpace.buttons) button_list →
  ∃ byte, JoypadSpace.byte_of_buttons button_list acc
          = JoypadSpace.Return byte.
Proof.
  revert acc. induction button_list as [|button rest IH]; intros acc Hall.
  - by eexists.
  - apply Forall_cons in Hall as [[v Hv]%button_known Hrest].
    simpl. rewrite Hv. by apply IH.
Qed.

Lemma byte_of_buttons_unknown before button after acc :
  Forall (λ button, button ∈ JoypadSpace.buttons) before →
  button ∉ JoypadSpace.buttons →
  JoypadSpace.byte_of_buttons (before ++ button :: after) acc
  = JoypadSpace.Raise (JoypadSpace.KeyError (JoypadSpace.KStr button)).
Proof.
  revert acc. induction before as [|b before IH]; intros acc Hall Hnew.
  - simpl. destruct (Dict.get JoypadSpace._button_map button) eqn:Hget;
      [|done]. destruct Hnew. apply button_known. by eexists.
  - apply Forall_cons in Hall as [[v Hv]%button_known Hrest].
    simpl. rewrite Hv. by apply IH.
Qed.

Lemma byte_of_buttons_inv button_list acc byte :
  JoypadSpace.byte_of_buttons button_list acc = JoypadSpace.Return byte →
  Forall (λ button, button ∈ JoypadSpace.buttons) button_list.
Proof.
  revert acc. induction button_list as [|button rest IH]; intros acc Hbyte.
  - constructor.
  - simpl in Hbyte.
    destruct (Dict.get JoypadSpace._button_map button) as [v|] eqn:Hv;
      [|done].
    constructor; [apply button_known; by eexists | by eapply IH].
Qed.

Lemma byte_of_buttons_range button_list acc byte :
  JoypadSpace.byte_of_buttons button_list acc = JoypadSpace.Return byte →
  0 ≤ acc < 2 ^ 8 → 0 ≤ byte < 2 ^ 8.
Proof.
  revert acc. induction button_list as [|button rest IH]; intros acc Hbyte Hacc.
  - by injection Hbyte as <-.
  - simpl in Hbyte.
    destruct (Dict.get JoypadSpace._button_map button) as [v|] eqn:Hv;
      [|done].
    apply (IH _ Hbyte). apply lor_below; [lia | done |].
    by apply (button_value_range button).
Qed.

Lemma byte_of_buttons_mask button_list acc byte button v :
  JoypadSpace.byte_of_buttons button_list acc = JoypadSpace.Return byte →
  Dict.get JoypadSpace._button_map button = Some v → v ≠ 0 →
  Z.land byte v = v ↔ Z.land acc v = v ∨ button ∈ button_list.
Proof.
  intros Hbyte Hv Hnz.
  destruct (button_value_bit _ _ Hv Hnz) as (k & Hk & ->).
  revert acc Hbyte.
  induction button_list as [|button' rest IH]; intros acc Hbyte.
  - injection Hbyte as <-. rewrite elem_of_nil. tauto.
  - simpl in Hbyte.
    destruct (Dict.get JoypadSpace._button_map button') as [v'|] eqn:Hv';
      [|done].
    rewrite (IH _ Hbyte), elem_of_cons.
    rewrite !land_pow2, Z.lor_spec, orb_true_iff by lia.
    rewrite <- (land_pow2 v') by lia.
    rewrite (button_mask_owner _ _ _ _ Hv Hnz Hv').
    intuition congruence.
Qed.

(** ** Construction of the wrapper *)

Lemma action_bytes_exist actions :
  Forall (Forall (λ button, button ∈ JoypadSpace.buttons)) actions →
  ∃ bytes, action_bytes actions bytes.
Proof.
  induction 1 as [|button_list rest Hknown _ [bytes IH]].
  - exists []. constructor.
  - destruct (byte_of_buttons_known button_list 0 Hknown) as [byte Hbyte].
    exists (byte :: bytes). by constructor.
Qed.

Lemma seqZ_snoc (n : Z) : 0 ≤ n → seqZ 0 (n + 1) = seqZ 0 n ++ [n].
Proof.
  intros Hn. rewrite seqZ_app by lia. f_equal.
Qed.

Lemma dict_get_zip_seqZ {V} m (values : list V) a :
  Dict.get (zip (seqZ m (len values)) values) a
  = if decide (m ≤ a < m + len values)
    then values !! Z.to_nat (a - m) else None.
Proof.
  unfold len. revert m. induction values as [|v values IH]; intros m.
  - rewrite decide_False by (simpl; lia). done.
  - rewrite seqZ_cons by (simpl; lia).
    replace (Z.pred (Z.of_nat (length (v :: values))))
      with (Z.of_nat (length values)) by (simpl; lia).
    cbn [zip zip_with]. unfold Dict.get; fold (@Dict.get Z V _).
    destruct (decide (a = m)) as [->|Hne].
    + rewrite decide_True by (simpl; lia). by rewrite Z.sub_diag.
    + rewrite IH. simpl length.
      destruct (decide (Z.succ m ≤ a < Z.succ m + Z.of_nat (length values))).
      * rewrite decide_True by lia.
        replace (Z.to_nat (a - m)) with (S (Z.to_nat (a - Z.succ m))) by lia.
        done.
      * by rewrite decide_False by lia.
Qed.

Section construction.
Context {Env : Type}.
Implicit Types (self : JoypadSpace.t Env) (actions : list (list string)).

Lemma init_loop_spec actions bytes :
  action_bytes actions bytes →
  ∀ action self,
    0 ≤ action →
    Dict.keys (JoypadSpace._action_map self) = seqZ 0 action →
    Dict.keys (JoypadSpace._action_meanings self) = seqZ 0 action →
    JoypadSpace.init_loop actions action self
    = JoypadSpace.Return
        {| JoypadSpace.env := JoypadSpace.env self;
           JoypadSpace.action_space := JoypadSpace.action_space self;
           JoypadSpace._action_map :=
             JoypadSpace._action_map self
               ++ zip (seqZ action (len actions)) bytes;
           JoypadSpace._action_meanings :=
             JoypadSpace._action_meanings self
               ++ zip (seqZ action (len actions))
                    (JoypadSpace.join " " <$> actions) |}.
Proof.
  induction 1 as [|button_list byte rest bytes Hbyte _ IH];
    intros action self Haction Hmap Hmeanings.
  - simpl. rewrite !app_nil_r. by destruct self.
  - cbn [JoypadSpace.init_loop]. rewrite Hbyte.
    assert (action ∉ seqZ 0 action) as Hnew by (rewrite elem_of_seqZ; lia).
    rewrite !dict_set_new by congruence.
    rewrite IH; cbn [JoypadSpace.env JoypadSpace.action_space
                     JoypadSpace._action_map JoypadSpace._action_meanings].
    + unfold len. rewrite (seqZ_cons action) by (simpl; lia).
      replace (Z.pred (Z.of_nat (length (button_list :: rest))))
        with (Z.of_nat (length rest)) by (simpl; lia).
      rewrite fmap_cons. cbn [zip zip_with].
      by rewrite <- !(assoc (++)).
    + lia.
    + unfold Dict.keys in *. by rewrite fmap_app, Hmap, seqZ_snoc.
    + unfold Dict.keys in *. by rewrite fmap_app, Hmeanings, seqZ_snoc.
Qed.

Lemma init_loop_inv actions action self self' :
  JoypadSpace.init_loop actions action self = JoypadSpace.Return self' →
  Forall (Forall (λ button, button ∈ JoypadSpace.buttons)) actions.
Proof.
  revert action self.
  induction actions as [|button_list rest IH]; intros action self Hinit.
  - constructor.
  - cbn [JoypadSpace.init_loop] in Hinit.
    destruct (JoypadSpace.byte_of_buttons button_list 0) as [byte|]
      eqn:Hbyte; [|done].
    constructor; [by eapply byte_of_buttons_inv | by eapply IH].
Qed.

Lemma init_loop_unknown finished before button after rest action self :
  Forall (Forall (λ button, button ∈ JoypadSpace.buttons)) finished →
  Forall (λ button, button ∈ JoypadSpace.buttons) before →
  button ∉ JoypadSpace.buttons →
  JoypadSpace.init_loop
    (finished ++ (before ++ button :: after) :: rest) action self
  = JoypadSpace.Raise (JoypadSpace.KeyError (JoypadSpace.KStr button)).
Proof.
  intros Hfinished Hbefore Hnew. revert action self.
  induction Hfinished as [|button_list finished Hknown _ IH];
    intros action self; cbn [app JoypadSpace.init_loop].
  - by rewrite byte_of_buttons_unknown.
  - destruct (byte_of_buttons_known button_list 0 Hknown) as [byte ->].
    apply IH.
Qed.

(** What a constructed wrapper holds. *)
Lemma init_spec (env : Env) actions self :
  JoypadSpace.__init__ env actions = JoypadSpace.Return self →
  ∃ bytes,
    action_bytes actions bytes ∧
    self = {| JoypadSpace.env := env;
              JoypadSpace.action_space := len actions;
              JoypadSpace._action_map := zip (seqZ 0 (len actions)) bytes;
              JoypadSpace._action_meanings :=
                zip (seqZ 0 (len actions))
                  (JoypadSpace.join " " <$> actions) |}.
Proof.
  unfold JoypadSpace.__init__. case_bool_decide; [|done]. intros Hinit.
  destruct (action_bytes_exist actions (init_loop_inv _ _ _ _ Hinit))
    as [bytes Hbytes].
  exists bytes. split; [done|].
  rewrite (init_loop_spec _ _ Hbytes) in Hinit by done.
  by injection Hinit as <-.
Qed.

End construction.

Lemma three_joypad_constructs :
  JoypadSpace.__init__ [] three_actions = JoypadSpace.Return three_joypad.
Proof. vm_compute. reflexivity. Defined.

Section wrapper_maps.
Context {Env : Type}.
Implicit Types (self : JoypadSpace.t Env) (actions : list (list string)).

(** The entry of [_action_map] for each action number. *)
Lemma init_lookup (env : Env) actions self :
  JoypadSpace.__init__ env actions = JoypadSpace.Return self →
  (∀ a, Dict.get (JoypadSpace._action_map self) a = None
        ↔ a < 0 ∨ len actions ≤ a) ∧
  (∀ (i : nat) button_list,
     actions !! i = Some button_list →
     ∃ byte,
       Dict.get (JoypadSpace._action_map self) (Z.of_nat i) = Some byte ∧
       JoypadSpace.byte_of_buttons button_list 0 = JoypadSpace.Return byte).
Proof.
  intros (bytes & Hbytes & ->)%init_spec.
  cbn [JoypadSpace._action_map].
  assert (len actions = len bytes) as ->
    by (unfold len; by rewrite (Forall2_length _ _ _ Hbytes)).
  split.
  - intros a. rewrite dict_get_zip_seqZ. case_decide as Ha.
    + split; [|lia]. intros Hnone%lookup_ge_None. unfold len in Ha. lia.
    + split; [lia | done].
  - intros i button_list Hi.
    destruct (Forall2_lookup_l _ _ _ _ _ Hbytes Hi) as (byte & Hb & Hbyte).
    exists byte. split; [|done].
    rewrite dict_get_zip_seqZ, decide_True.
    + by rewrite Z.sub_0_r, Nat2Z.id.
    + apply lookup_lt_Some in Hb. unfold len. lia.
Qed.

End wrapper_maps.



(** X15: construction raises [KeyError] for the first button, in reading
    order, that [_button_map] does not have. *)
Theorem joypad_init_unknown_button
    {Env} (env : Env) finished before button after rest :
  Forall (Forall (λ button, button ∈ JoypadSpace.buttons)) finished →
  Forall (λ button, button ∈ JoypadSpace.buttons) before →
  button ∉ JoypadSpace.buttons →
  JoypadSpace.__init__ env
    (finished ++ (before ++ button :: after) :: rest)
  = JoypadSpace.Raise (JoypadSpace.KeyError (JoypadSpace.KStr button)).
Proof.
  intros Hfinished Hbefore Hnew. unfold JoypadSpace.__init__.
  rewrite bool_decide_true
    by (unfold len; rewrite length_app, length_cons; lia).
  by apply init_loop_unknown.
Qed.

Lemma joypad_init_unknown_button_witness :
  JoypadSpace.__init__ tt
    ([ ["NOOP"%string] ]
       ++ (["right"%string] ++ "a"%string :: ["fire"%string]) :: [])
  = JoypadSpace.Raise (JoypadSpace.KeyError (JoypadSpace.KStr "a")).
Proof.
  apply (joypad_init_unknown_button tt [ ["NOOP"%string] ]
           ["right"%string] "a"%string ["fire"%string] []).
  - apply (bool_decide_unpack _). vm_compute. exact I.
  - apply (bool_decide_unpack _). vm_compute. exact I.
  - apply (bool_decide_unpack _). vm_compute. exact I.
Defined.

(** X16: a constructed wrapper has one entry per action and no other; the
    byte of an action fits eight bits, and the bit of a button is set in it
    exactly when the action lists the button, so neither the order of the
    buttons, nor a repetition, nor NOOP changes the byte. *)
Theorem joypad_action_bytes {Env} (env : Env) actions self :
  JoypadSpace.__init__ env actions = JoypadSpace.Return self →
  JoypadSpace.env self = env ∧
  JoypadSpace.action_space self = len actions ∧
  (∀ a, Dict.get (JoypadSpace._action_map self) a = None
        ↔ a < 0 ∨ len actions ≤ a) ∧
  (∀ (i : nat) button_list,
     actions !! i = Some button_list →
     ∃ byte,
       Dict.get (JoypadSpace._action_map self) (Z.of_nat i) = Some byte ∧
       0 ≤ byte ≤ 255 ∧
       ∀ button v,
         Dict.get JoypadSpace._button_map button = Some v → v ≠ 0 →
         (Z.land byte v = v ↔ button ∈ button_list)).
Proof.
  intros Hinit. destruct (init_lookup _ _ _ Hinit) as [Hnone Hsome].
  destruct (init_spec _ _ _ Hinit) as (bytes & _ & ->).
  split_and!; [done | done | done |].
  intros i button_list Hi.
  destruct (Hsome i button_list Hi) as (byte & Hget & Hbyte).
  exists byte. split_and!; [done | | |].
  - apply (byte_of_buttons_range _ _ _ Hbyte). lia.
  - pose proof (byte_of_buttons_range _ _ _ Hbyte). lia.
  - intros button v Hv Hnz.
    rewrite (byte_of_buttons_mask _ _ _ _ _ Hbyte Hv Hnz).
    rewrite Z.land_0_l. split; [intros [?|?]; [congruence|done] | tauto].
Qed.

Lemma joypad_action_bytes_witness :
  JoypadSpace.env three_joypad = [] ∧
  JoypadSpace.action_space three_joypad = len three_actions ∧
  (∀ a, Dict.get (JoypadSpace._action_map three_joypad) a = None
        ↔ a < 0 ∨ len three_actions ≤ a) ∧
  (∀ (i : nat) button_list,
     three_actions !! i = Some button_list →
     ∃ byte,
       Dict.get (JoypadSpace._action_map three_joypad) (Z.of_nat i)
       = Some byte ∧
       0 ≤ byte ≤ 255 ∧
       ∀ button v,
         Dict.get JoypadSpace._button_map button = Some v → v ≠ 0 →
         (Z.land byte v = v ↔ button ∈ button_list)).
Proof.
  apply (joypad_action_bytes [] three_actions three_joypad).
  apply three_joypad_constructs.
Defined.

(** X17: [step] looks the action up in a dictionary, not in a list: an
    action below zero or beyond the last one raises [KeyError], and action
    [i] steps the environment with the byte of the [i]-th button list and
    leaves the maps of the wrapper as they are. *)
Theorem joypad_step {Env Output} (env_step : Env → Z → Output * Env)
    (env : Env) actions self :
  JoypadSpace.__init__ env actions = JoypadSpace.Return self →
  (∀ a, a < 0 ∨ len actions ≤ a →
        JoypadSpace.step env_step self a
        = JoypadSpace.Raise (JoypadSpace.KeyError (JoypadSpace.KInt a))) ∧
  (∀ (i : nat) button_list,
     actions !! i = Some button_list →
     ∃ byte,
       JoypadSpace.byte_of_buttons button_list 0 = JoypadSpace.Return byte ∧
       JoypadSpace.step env_step self (Z.of_nat i)
       = JoypadSpace.Return
           ((env_step env byte).1,
            {| JoypadSpace.env := (env_step env byte).2;
               JoypadSpace.action_space := JoypadSpace.action_space self;
               JoypadSpace._action_map := JoypadSpace._action_map self;
               JoypadSpace._action_meanings :=
                 JoypadSpace._action_meanings self |})).
Proof.
  intros Hinit. destruct (init_lookup _ _ _ Hinit) as [Hnone Hsome].
  destruct (init_spec _ _ _ Hinit) as (bytes & _ & Hself).
  split.
  - intros a Ha%Hnone. unfold JoypadSpace.step. by rewrite Ha.
  - intros i button_list Hi.
    destruct (Hsome i button_list Hi) as (byte & Hget & Hbyte).
    exists byte. split; [done|].
    unfold JoypadSpace.step. rewrite Hget.
    assert (JoypadSpace.env self = env) as -> by (by rewrite Hself).
    by destruct (env_step env byte).
Qed.

Lemma joypad_step_witness :
  (∀ a, a < 0 ∨ len three_actions ≤ a →
        JoypadSpace.step recording_step three_joypad a
        = JoypadSpace.Raise (JoypadSpace.KeyError (JoypadSpace.KInt a))) ∧
  (∀ (i : nat) button_list,
     three_actions !! i = Some button_list →
     ∃ byte,
       JoypadSpace.byte_of_buttons button_list 0 = JoypadSpace.Return byte ∧
       JoypadSpace.step recording_step three_joypad (Z.of_nat i)
       = JoypadSpace.Return
           ((recording_step [] byte).1,
            {| JoypadSpace.env := (recording_step [] byte).2;
               JoypadSpace.action_space :=
                 JoypadSpace.action_space three_joypad;
               JoypadSpace._action_map :=
                 JoypadSpace._action_map three_joypad;
               JoypadSpace._action_meanings :=
                 JoypadSpace._action_meanings three_joypad |})).
Proof.
  apply (joypad_step recording_step [] three_actions three_joypad).
  apply three_joypad_constructs.
Defined.

Example three_joypad_steps :
  JoypadSpace.step recording_step three_joypad 2
    = JoypadSpace.Return (129, {| JoypadSpace.env := [129];
        JoypadSpace.action_space := 3;
        JoypadSpace._action_map := [(0, 0); (1, 128); (2, 129)];
        JoypadSpace._action_meanings :=
          [(0, "NOOP"%string); (1, "right"%string);
           (2, "right A"%string)] |}) ∧
  JoypadSpace.step recording_step three_joypad (-1)
    = JoypadSpace.Raise (JoypadSpace.KeyError (JoypadSpace.KInt (-1))).
Proof. split; vm_compute; reflexivity. Qed.

(** ** The meanings and the keys of the actions *)

Lemma seqZ_Sorted m (k : nat) : Sorted Z.le (seqZ m (Z.of_nat k)).
Proof.
  revert m. induction k as [|k IH]; intros m.
  - rewrite seqZ_nil by lia. constructor.
  - rewrite seqZ_cons by lia.
    replace (Z.pred (Z.of_nat (S k))) with (Z.of_nat k) by lia.
    constructor; [apply IH|].
    destruct k as [|k]; [rewrite seqZ_nil by lia; constructor|].
    rewrite seqZ_cons by lia. constructor. lia.
Qed.

(** [sorted] leaves the keys [0, 1, ..., n - 1] in their order. *)
Lemma sorted_seqZ n : merge_sort Z.le (seqZ 0 n) = seqZ 0 n.
Proof.
  destruct (Z.le_gt_cases 0 n) as [Hn|Hn]; [|by rewrite seqZ_nil by lia].
  apply (Sorted_unique Z.le).
  - apply (Sorted_merge_sort Z.le).
  - rewrite <- (Z2Nat.id n) by done. apply seqZ_Sorted.
  - apply merge_sort_Permutation.
Qed.

Lemma zip_seqZ_keys {V} (values : list V) :
  Dict.keys (zip (seqZ 0 (len values)) values) = seqZ 0 (len values).
Proof.
  unfold Dict.keys, len. apply fst_zip. rewrite length_seqZ. lia.
Qed.

Lemma meanings_of_lookup meanings actions values :
  Forall2 (λ action value, Dict.get meanings action = Some value)
    actions values →
  JoypadSpace.meanings_of meanings actions = JoypadSpace.Return values.
Proof.
  induction 1 as [|action value actions values Hget _ IH]; [done|].
  cbn [JoypadSpace.meanings_of]. by rewrite Hget, IH.
Qed.

Lemma zip_seqZ_lookups {V} (values : list V) :
  Forall2 (λ action value,
             Dict.get (zip (seqZ 0 (len values)) values) action = Some value)
    (seqZ 0 (len values)) values.
Proof.
  apply Forall2_same_length_lookup_2.
  - unfold len. rewrite length_seqZ. lia.
  - intros i action value [-> Hi]%lookup_seqZ Hvalue.
    rewrite dict_get_zip_seqZ, decide_True by lia.
    by rewrite Z.sub_0_r, Z.add_0_l, Nat2Z.id.
Qed.

(** X18: [get_action_meanings] lists the actions in their order, each as its
    buttons separated by single spaces. *)
Theorem joypad_action_meanings {Env} (env : Env) actions self :
  JoypadSpace.__init__ env actions = JoypadSpace.Return self →
  JoypadSpace.get_action_meanings self
  = JoypadSpace.Return (JoypadSpace.join " " <$> actions).
Proof.
  intros (bytes & _ & ->)%init_spec.
  unfold JoypadSpace.get_action_meanings.
  cbn [JoypadSpace._action_meanings].
  assert (len actions = len (JoypadSpace.join " " <$> actions)) as ->
    by (unfold len; by rewrite length_fmap).
  rewrite zip_seqZ_keys, sorted_seqZ.
  apply meanings_of_lookup, zip_seqZ_lookups.
Qed.

Lemma joypad_action_meanings_witness :
  JoypadSpace.get_action_meanings three_joypad
  = JoypadSpace.Return (JoypadSpace.join " " <$> three_actions).
Proof.
  apply (joypad_action_meanings [] three_actions three_joypad).
  apply three_joypad_constructs.
Defined.

Example three_joypad_meanings :
  JoypadSpace.get_action_meanings three_joypad
  = JoypadSpace.Return ["NOOP"%string; "right"%string; "right A"%string].
Proof. vm_compute. reflexivity. Qed.

Arguments JoypadSpace.invert : simpl never.

(** The inverted dictionary maps a byte to keys that the environment maps
    to that byte, and has every byte the environment has. *)
Lemma invert_acc_sound (items : list (list Z * Z)) acc byte keys :
  Dict.get (foldl (λ acc kv, Dict.set acc kv.2 kv.1) acc items) byte
  = Some keys →
  Dict.get acc byte = Some keys ∨ (keys, byte) ∈ items.
Proof.
  revert acc. induction items as [|[k v] items IH]; intros acc; simpl.
  - by left.
  - intros [Hacc|Hin]%IH.
    + rewrite dict_get_set in Hacc. case_decide as Hv.
      * injection Hacc as <-. subst. right. apply list_elem_of_here.
      * by left.
    + right. by apply list_elem_of_further.
Qed.

Lemma invert_acc_complete (items : list (list Z * Z)) acc byte :
  is_Some (Dict.get acc byte) ∨ (∃ keys, (keys, byte) ∈ items) →
  is_Some (Dict.get (foldl (λ acc kv, Dict.set acc kv.2 kv.1) acc items)
             byte).
Proof.
  revert acc. induction items as [|[k v] items IH]; intros acc; simpl.
  - intros [?|[keys ?%elem_of_nil]]; done.
  - intros Hcases. apply IH. rewrite dict_get_set. simpl.
    destruct (decide (byte = v)) as [->|Hne]; [left; by eexists|].
    destruct Hcases as [?|[keys [Heq|Hin]%elem_of_cons]].
    + by left.
    + injection Heq as -> ->. done.
    + right. by exists keys.
Qed.

Lemma invert_sound old byte keys :
  Dict.get (JoypadSpace.invert old) byte = Some keys → (keys, byte) ∈ old.
Proof.
  unfold JoypadSpace.invert, Dict.items.
  by intros [?|?]%invert_acc_sound.
Qed.

Lemma invert_complete old byte :
  is_Some (Dict.get (JoypadSpace.invert old) byte)
  ↔ ∃ keys, (keys, byte) ∈ old.
Proof.
  split.
  - intros [keys Hkeys]. exists keys. by apply invert_sound.
  - intros Hin. apply invert_acc_complete. by right.
Qed.

Lemma keys_loop_sound action_to_keys action_items acc d keys action :
  JoypadSpace.keys_loop action_to_keys action_items acc
  = JoypadSpace.Return d →
  Dict.get d keys = Some action →
  Dict.get acc keys = Some action ∨
  ∃ byte, (action, byte) ∈ action_items ∧
          Dict.get action_to_keys byte = Some keys.
Proof.
  revert acc. induction action_items as [|[a b] rest IH]; intros acc.
  - intros [= <-] Hget. by left.
  - cbn [JoypadSpace.keys_loop].
    destruct (Dict.get action_to_keys b) as [ks|] eqn:Hks; [|done].
    intros Hloop Hget. destruct (IH _ Hloop Hget) as [Hacc|(byte & Hin & Hb)].
    + rewrite dict_get_set in Hacc. case_decide as Hk.
      * injection Hacc as <-. subst. right. exists b.
        split; [apply list_elem_of_here | done].
      * by left.
    + right. exists byte. split; [by apply list_elem_of_further | done].
Qed.

Lemma keys_loop_outcome action_to_keys action_items acc :
  (∀ action byte, (action, byte) ∈ action_items →
                  is_Some (Dict.get action_to_keys byte)) ∧
  (∃ d, JoypadSpace.keys_loop action_to_keys action_items acc
        = JoypadSpace.Return d)
  ∨
  ∃ action byte,
    (action, byte) ∈ action_items ∧ Dict.get action_to_keys byte = None ∧
    JoypadSpace.keys_loop action_to_keys action_items acc
    = JoypadSpace.Raise (JoypadSpace.KeyError (JoypadSpace.KInt byte)).
Proof.
  revert acc. induction action_items as [|[a b] rest IH]; intros acc.
  - left. split; [by intros ?? ?%elem_of_nil | by eexists].
  - cbn [JoypadSpace.keys_loop].
    destruct (Dict.get action_to_keys b) as [ks|] eqn:Hks.
    + destruct (IH (Dict.set acc ks a))
        as [[Hall Hok]|(action & byte & Hin & Hnone & Hraise)].
      * left. split; [|done].
        intros action byte [[= -> ->]|Hin]%elem_of_cons;
          [by eexists | by eapply Hall].
      * right. exists action, byte.
        split_and!; [by apply list_elem_of_further | done | done].
    + right. exists a, b. split_and!; [apply list_elem_of_here | done | done].
Qed.

Lemma keys_to_action_sound {Env}
    (env_keys : Env → option (Dict.dict (list Z) Z)) (env : Env)
    actions self old d keys action :
  JoypadSpace.__init__ env actions = JoypadSpace.Return self →
  env_keys env = Some old → NoDup (Dict.keys old) →
  JoypadSpace.get_keys_to_action env_keys self = JoypadSpace.Return d →
  Dict.get d keys = Some action →
  ∃ byte,
    Dict.get (JoypadSpace._action_map self) action = Some byte ∧
    Dict.get old keys = Some byte.
Proof.
  intros (bytes & Hbytes & ->)%init_spec Hold Hnodup.
  unfold JoypadSpace.get_keys_to_action.
  cbn [JoypadSpace.env JoypadSpace._action_map]. rewrite Hold.
  assert (len actions = len bytes) as ->
    by (unfold len; by rewrite (Forall2_length _ _ _ Hbytes)).
  intros Hd Hget.
  destruct (keys_loop_sound _ _ _ _ _ _ Hd Hget)
    as [?|(byte & Hin & Hb)]; [done|].
  exists byte. split.
  - apply dict_elem_get; [|done]. rewrite zip_seqZ_keys. apply NoDup_seqZ.
  - by apply dict_elem_get, invert_sound.
Qed.

(** X19: [get_keys_to_action] needs the method of the environment, and then
    gives each action the keys that the environment has for the byte of the
    action: the result maps keys to an action only if the environment maps
    those keys to the byte of that action.  It returns a dictionary exactly
    when the environment has keys for the byte of every action, and else
    raises [KeyError] with a byte that has none. *)
Theorem joypad_keys_to_action {Env}
    (env_keys : Env → option (Dict.dict (list Z) Z)) (env : Env) actions self :
  JoypadSpace.__init__ env actions = JoypadSpace.Return self →
  (env_keys env = None →
   JoypadSpace.get_keys_to_action env_keys self
   = JoypadSpace.Raise
       (JoypadSpace.ValueError "self.env has no get_keys_to_action method")) ∧
  (∀ old, env_keys env = Some old → NoDup (Dict.keys old) →
     (∀ d keys action,
        JoypadSpace.get_keys_to_action env_keys self = JoypadSpace.Return d →
        Dict.get d keys = Some action →
        ∃ byte,
          Dict.get (JoypadSpace._action_map self) action = Some byte ∧
          Dict.get old keys = Some byte) ∧
     ((∃ d, JoypadSpace.get_keys_to_action env_keys self
            = JoypadSpace.Return d)
      ↔ ∀ action byte,
          Dict.get (JoypadSpace._action_map self) action = Some byte →
          ∃ keys, Dict.get old keys = Some byte) ∧
     (∀ e, JoypadSpace.get_keys_to_action env_keys self = JoypadSpace.Raise e →
           ∃ action byte,
             Dict.get (JoypadSpace._action_map self) action = Some byte ∧
             (∀ keys, Dict.get old keys ≠ Some byte) ∧
             e = JoypadSpace.KeyError (JoypadSpace.KInt byte))).
Proof.
  intros (bytes & Hbytes & ->)%init_spec.
  unfold JoypadSpace.get_keys_to_action.
  cbn [JoypadSpace.env JoypadSpace._action_map]. split.
  - by intros ->.
  - intros old -> Hold.
    assert (len actions = len bytes) as ->
      by (unfold len; by rewrite (Forall2_length _ _ _ Hbytes)).
    set (action_map := zip (seqZ 0 (len bytes)) bytes).
    assert (NoDup (Dict.keys action_map)) as Hmap
      by (unfold action_map; rewrite zip_seqZ_keys; apply NoDup_seqZ).
    assert (∀ byte, is_Some (Dict.get (JoypadSpace.invert old) byte)
                    ↔ ∃ keys, Dict.get old keys = Some byte) as Hinv.
    { intros byte. rewrite invert_complete.
      split; intros [keys Hkeys]; exists keys;
        [by apply dict_elem_get | by apply dict_get_elem]. }
    unfold Dict.items.
    destruct (keys_loop_outcome (JoypadSpace.invert old) action_map [])
      as [[Hall [d Hd]]|(action & byte & Hin & Hnone & Hraise)].
    + rewrite Hd. split_and!.
      * intros d' keys action [= <-] Hget.
        destruct (keys_loop_sound _ _ _ _ _ _ Hd Hget)
          as [?|(byte & Hin & Hb)]; [done|].
        exists byte. split; [by apply dict_elem_get|].
        by apply dict_elem_get, invert_sound.
      * split; [|by eexists]. intros _ action byte Hget%dict_get_elem.
        apply Hinv. by eapply Hall.
      * done.
    + rewrite Hraise. split_and!.
      * done.
      * split; [by intros [? ?]|]. intros Hall.
        apply dict_elem_get in Hin; [|done].
        apply Hall, Hinv in Hin as [? ?]. congruence.
      * intros e [= <-]. exists action, byte.
        split_and!; [by apply dict_elem_get | | done].
        intros keys Hkeys.
        assert (is_Some (Dict.get (JoypadSpace.invert old) byte)) as [? ?]
          by (apply Hinv; by exists keys).
        congruence.
Qed.

Lemma joypad_keys_to_action_witness :
  (three_keys [] = None →
   JoypadSpace.get_keys_to_action three_keys three_joypad
   = JoypadSpace.Raise
       (JoypadSpace.ValueError "self.env has no get_keys_to_action method")) ∧
  (∀ old, three_keys [] = Some old → NoDup (Dict.keys old) →
     (∀ d keys action,
        JoypadSpace.get_keys_to_action three_keys three_joypad
        = JoypadSpace.Return d →
        Dict.get d keys = Some action →
        ∃ byte,
          Dict.get (JoypadSpace._action_map three_joypad) action = Some byte ∧
          Dict.get old keys = Some byte) ∧
     ((∃ d, JoypadSpace.get_keys_to_action three_keys three_joypad
            = JoypadSpace.Return d)
      ↔ ∀ action byte,
          Dict.get (JoypadSpace._action_map three_joypad) action = Some byte →
          ∃ keys, Dict.get old keys = Some byte) ∧
     (∀ e, JoypadSpace.get_keys_to_action three_keys three_joypad
           = JoypadSpace.Raise e →
           ∃ action byte,
             Dict.get (JoypadSpace._action_map three_joypad) action
             = Some byte ∧
             (∀ keys, Dict.get old keys ≠ Some byte) ∧
             e = JoypadSpace.KeyError (JoypadSpace.KInt byte))).
Proof.
  apply (joypad_keys_to_action three_keys [] three_actions three_joypad).
  apply three_joypad_constructs.
Defined.

Example three_joypad_keys :
  JoypadSpace.get_keys_to_action three_keys three_joypad
  = JoypadSpace.Return [([], 0); ([100], 1); ([100; 111], 2)].
Proof. vm_compute. reflexivity. Qed.

(** X20: the wrapper keeps the meaning of the keyboard: stepping with the
    action that [get_keys_to_action] gives for some keys steps the
    environment with the byte that the environment assigns to those
    keys. *)
Theorem joypad_keys_round_trip {Env Output}
    (env_step : Env → Z → Output * Env)
    (env_keys : Env → option (Dict.dict (list Z) Z)) (env : Env)
    actions self old d keys action :
  JoypadSpace.__init__ env actions = JoypadSpace.Return self →
  env_keys env = Some old → NoDup (Dict.keys old) →
  JoypadSpace.get_keys_to_action env_keys self = JoypadSpace.Return d →
  Dict.get d keys = Some action →
  ∃ byte,
    Dict.get old keys = Some byte ∧
    JoypadSpace.step env_step self action
    = JoypadSpace.Return
        ((env_step env byte).1,
         {| JoypadSpace.env := (env_step env byte).2;
            JoypadSpace.action_space := JoypadSpace.action_space self;
            JoypadSpace._action_map := JoypadSpace._action_map self;
            JoypadSpace._action_meanings :=
              JoypadSpace._action_meanings self |}).
Proof.
  intros Hinit Hold Hnodup Hd Hget.
  destruct (keys_to_action_sound _ _ _ _ _ _ _ _ Hinit Hold Hnodup Hd Hget)
    as (byte & Hmap & Hkeys).
  exists byte. split; [done|].
  destruct (init_spec _ _ _ Hinit) as (bytes & _ & Hself).
  unfold JoypadSpace.step. rewrite Hmap.
  assert (JoypadSpace.env self = env) as -> by (by rewrite Hself).
  by destruct (env_step env byte).
Qed.

Lemma joypad_keys_round_trip_witness :
  ∃ byte,
    Dict.get [ ([], 0); ([100], 128); ([100; 111], 129); ([97], 64) ]
      [100; 111] = Some byte ∧
    JoypadSpace.step recording_step three_joypad 2
    = JoypadSpace.Return
        ((recording_step [] byte).1,
         {| JoypadSpace.env := (recording_step [] byte).2;
            JoypadSpace.action_space := JoypadSpace.action_space three_joypad;
            JoypadSpace._action_map := JoypadSpace._action_map three_joypad;
            JoypadSpace._action_meanings :=
              JoypadSpace._action_meanings three_joypad |}).
Proof.
  apply (joypad_keys_round_trip recording_step three_keys [] three_actions
           three_joypad
           [ ([], 0); ([100], 128); ([100; 111], 129); ([97], 64) ]
           [([], 0); ([100], 1); ([100; 111], 2)] [100; 111] 2).
  - apply three_joypad_constructs.
  - reflexivity.
  - apply (bool_decide_unpack _). vm_compute. exact I.
  - vm_compute. reflexivity.
  - vm_compute. reflexivity.
Defined.
